(** * failman: the join / classify / render pipeline of [failman.py]

    A shallow embedding of the core of [failman.py]: the join of the builder
    roster with the builds of the latest change of a branch, the selection of
    the failed builds, the CSV and HTML renderings, and the final decision to
    send one mail or none.

    Conventions of the embedding.
    - A Python [str] is a [string], a character beyond ASCII standing as
      its UTF-8 bytes: concatenation, equality, membership and the order [<]
      (by code points, which UTF-8 keeps: [String.ltb]) carry over to the
      bytes, and the ASCII characters the code looks for (comma, quote, line
      break) occur in no other character's bytes.
    - [str.lower] follows Unicode's case table, which is not written down
      here: it is the parameter [lower] of everything that lowercases. Only
      its action on ASCII text, [lowers_ascii], is ever assumed, and only
      where a property names particular strings.
    - The JSON objects returned by the CI server are records: a key read
      with a subscript ([builder["name"]]) is a field, a key read with
      [.get] is an optional field, [None] when the key is missing.
    - A [dict] used as an index is a [gmap]; the [defaultdict] whose keys
      are later sorted is an insertion-ordered association list.
    - An exception is a value of [result]. *)

From Stdlib Require Import Ascii.
From stdpp Require Import gmap strings list sorting pretty.

(** ** Python primitives *)

Module Py.

Inductive exn : Type :=
| AttributeError (obj attr : string).

Inductive result (A : Type) : Type :=
| Ok (a : A)
| Raise (e : exn).
Global Arguments Ok {A} a.
Global Arguments Raise {A} e.

(** Sequencing stops at the first exception. *)
Global Instance result_bind : MBind result := λ A B k m,
  match m with
  | Ok a => k a
  | Raise e => Raise e
  end.

Definition LF : ascii := "010"%char.
Definition CR : ascii := "013"%char.
Definition DQUOTE : ascii := "034"%char.

(** The part of the case table of [str.lower] that concerns ASCII: [A]..[Z]
    move to [a]..[z], the other ASCII characters stay. *)
Definition ascii_lower (c : ascii) : ascii :=
  let n := N_of_ascii c in
  if ((65 <=? n) && (n <=? 90))%N then ascii_of_N (n + 32) else c.

(** [s.lower()] for a [str] of ASCII characters. *)
Fixpoint ascii_str_lower (s : string) : string :=
  match s with
  | EmptyString => EmptyString
  | String c s' => String (ascii_lower c) (ascii_str_lower s')
  end.

(** [s.isascii()] *)
Fixpoint isascii (s : string) : bool :=
  match s with
  | EmptyString => true
  | String c s' => (N_of_ascii c <? 128)%N && isascii s'
  end.

(** What is known here of [str.lower], whose case table is Unicode's and is
    a parameter of the development: on ASCII text it is [ascii_str_lower]. *)
Definition lowers_ascii (lower : string → string) : Prop :=
  ∀ s, isascii s = true → lower s = ascii_str_lower s.

(** [str(v)] for an [int]. *)
Definition str_int (z : Z) : string := pretty z.

(** [str(v)] where [v] is an [int] or [None], as an f-string field. *)
Definition str_opt_int (v : option Z) : string :=
  match v with
  | Some z => str_int z
  | None => "None"
  end.

(** [str(v)] where [v] is a [str] or [None], as an f-string field. *)
Definition str_opt_str (v : option string) : string :=
  match v with
  | Some s => s
  | None => "None"
  end.

(** [sep.join(parts)] *)
Fixpoint join (sep : string) (parts : list string) : string :=
  match parts with
  | [] => EmptyString
  | [p] => p
  | p :: ps => p +:+ sep +:+ join sep ps
  end.

(** [x in xs] for a list of [str]. *)
Definition str_in (x : string) (xs : list string) : bool :=
  existsb (String.eqb x) xs.

(** [sorted] is stable: an element goes in front of the first element of
    the sorted tail that is not smaller than it, so that among equal keys
    the input order is kept. [lt] is the comparison [sorted] uses ([<] on
    the keys, flipped under [reverse=True]). *)
Section Sorted.
Context {A : Type} (lt : A → A → bool).

Fixpoint insert_sorted (x : A) (l : list A) : list A :=
  match l with
  | [] => [x]
  | y :: l' => if lt y x then y :: insert_sorted x l' else x :: y :: l'
  end.

Definition sorted (l : list A) : list A := foldr insert_sorted [] l.
End Sorted.

(** [sorted(l, key=key)] with [str] keys. *)
Definition sorted_key {A} (key : A → string) (l : list A) : list A :=
  sorted (λ x y, String.ltb (key x) (key y)) l.

(** [sorted(l, reverse=True)] on [str]. *)
Definition sorted_reverse (l : list string) : list string :=
  sorted (λ x y, String.ltb y x) l.

End Py.

Import Py.

(** ** Data *)

(** An element of ["builders"] in the answer to [GET {api}/builders]. *)
Record Builder := mkBuilder {
  builder_builderid : Z;      (* builder["builderid"] *)
  builder_name : string;      (* builder["name"] *)
}.

(** An element of ["builds"] of a change. *)
Record BuildRecord := mkBuildRecord {
  build_builderid : Z;                (* b["builderid"] *)
  build_number : option Z;            (* b.get("number") *)
  build_state_string : option string; (* b.get("state_string") *)
}.

(** The dataclass [Build]. [status] is what [.get("state_string")] gave. *)
Record Build := mkBuild {
  name : string;
  url : string;
  commit : string;
  branch : string;
  status : option string;
}.

Global Instance Build_eq_dec : EqDecision Build.
Proof. solve_decision. Defined.

(** ** The join *)

(** [{b["builderid"]: b for b in builds}] *)
Definition build_map_of (builds : list BuildRecord) : gmap Z BuildRecord :=
  foldl (λ m b, <[build_builderid b := b]> m) ∅ builds.

(** The [Build] appended for a builder whose build was found. *)
Definition make_build (builder : Builder) (build_data : BuildRecord)
    (branch revision buildbot_url : string) : Build :=
  {| name := builder_name builder;
     branch := branch;
     commit := revision;
     url := buildbot_url +:+ "#/builders/" +:+ str_int (builder_builderid builder)
            +:+ "/builds/" +:+ str_opt_int (build_number build_data);
     status := build_state_string build_data |}.

(** One turn of the loop over [builders]. A record found in [build_map] has
    the key ["builderid"], so it is a non-empty dict and [if build_data:] is
    taken exactly when the lookup succeeds. *)
Definition join_step (build_map : gmap Z BuildRecord)
    (branch revision buildbot_url : string)
    (builds : list Build) (builder : Builder) : list Build :=
  let builderid := builder_builderid builder in
  match build_map !! builderid with
  | Some build_data =>
      builds ++ [make_build builder build_data branch revision buildbot_url]
  | None => builds
  end.

Definition join_builders_with_change (builders : list Builder)
    (builds : list BuildRecord) (branch revision buildbot_url : string)
    : list Build :=
  let build_map := build_map_of builds in
  foldl (join_step build_map branch revision buildbot_url) [] builders.

(** ** The failed builds *)

Definition healthy_statuses : list string :=
  ["acquiring locks"; "building"; "build successful"; "preparing worker"].

(** ** The CSV rendering *)

(** [csv.writer(output)] with its default dialect, [excel]: fields are
    separated by a comma, a record ends with CR LF, and a field is quoted
    only when it has to be ([QUOTE_MINIMAL]) with the quote character
    doubled inside it. *)
Module Csv.

Definition delimiter : ascii := ",".
Definition quotechar : ascii := DQUOTE.
Definition lineterminator : string := String CR (String LF EmptyString).

Fixpoint char_in (c : ascii) (s : string) : bool :=
  match s with
  | EmptyString => false
  | String d s' => Ascii.eqb c d || char_in c s'
  end.

(** The characters that make the writer quote the field. *)
Definition special (c : ascii) : bool :=
  Ascii.eqb c delimiter || Ascii.eqb c quotechar || char_in c lineterminator.

Fixpoint has_special (s : string) : bool :=
  match s with
  | EmptyString => false
  | String c s' => special c || has_special s'
  end.

(** The field data as copied into the record: a quote character is
    written twice. *)
Fixpoint copy_data (s : string) : string :=
  match s with
  | EmptyString => EmptyString
  | String c s' =>
      if Ascii.eqb c quotechar
      then String quotechar (String quotechar (copy_data s'))
      else String c (copy_data s')
  end.

Definition quoted (s : string) : string :=
  String quotechar (copy_data s +:+ String quotechar EmptyString).

(** [None] is written as the empty field. *)
Definition field_data (v : option string) : string :=
  match v with
  | Some s => s
  | None => EmptyString
  end.

Definition field (v : option string) : string :=
  let s := field_data v in
  if has_special s then quoted s else s.

(** The text of one record. A record made of a single empty field is
    written quoted, so that it is not an empty line. *)
Definition record (row : list (option string)) : string :=
  let fields := join (String delimiter EmptyString) (field <$> row) in
  match row, fields with
  | [_], EmptyString => quoted EmptyString +:+ lineterminator
  | _, _ => fields +:+ lineterminator
  end.

(** [writer.writerow(row)], on the text held by the [StringIO]. *)
Definition writerow (output : string) (row : list (option string)) : string :=
  output +:+ record row.

End Csv.

Definition csv_header : list (option string) :=
  [Some "Branch"; Some "Build"; Some "Commit"; Some "Status"; Some "URL"].

Definition csv_row (b : Build) : list (option string) :=
  [Some (branch b); Some (name b); Some (commit b); status b; Some (url b)].

Definition builds_to_csv (builds : list Build) : string :=
  let output := EmptyString in
  let output := Csv.writerow output csv_header in
  let output := foldl (λ output b, Csv.writerow output (csv_row b)) output builds in
  output.

(** ** The HTML rendering *)

(** [grouped[key].append(b)] on the [defaultdict(list)]: a new key enters
    after the keys already there, with the one-element list. *)
Fixpoint grouped_append (grouped : list (string * list Build))
    (key : string) (b : Build) : list (string * list Build) :=
  match grouped with
  | [] => [(key, [b])]
  | (k, bs) :: rest =>
      if String.eqb k key then (k, bs ++ [b]) :: rest
      else (k, bs) :: grouped_append rest key b
  end.

(** [grouped[key]] *)
Fixpoint grouped_get (grouped : list (string * list Build)) (key : string)
    : list Build :=
  match grouped with
  | [] => []
  | (k, bs) :: rest => if String.eqb k key then bs else grouped_get rest key
  end.

(** [grouped.keys()] *)
Definition grouped_keys (grouped : list (string * list Build)) : list string :=
  fst <$> grouped.

(** The first loop of [builds_to_html_table]. *)
Definition group_by_branch (builds : list Build) : list (string * list Build) :=
  foldl (λ grouped b, grouped_append grouped (branch b) b) [] builds.

Definition separator : string :=
  "<hr style='border:none;border-top:1px solid #ccc;margin:20px 0;'>".

Definition html_header_row : string :=
  "<tr><th>Build</th><th>Commit</th><th>Status</th></tr>".

Definition html_row (b : Build) : string :=
  let hyperlink :=
    "<a href=" +:+ String DQUOTE (url b) +:+ String DQUOTE ">" +:+ name b +:+ "</a>" in
  "<tr>"
  +:+ "<td>" +:+ hyperlink +:+ "</td>"
  +:+ "<td>" +:+ commit b +:+ "</td>"
  +:+ "<td>" +:+ str_opt_str (status b) +:+ "</td>"
  +:+ "</tr>".

Definition html_table (builds_in_branch_sorted : list Build) : string :=
  let rows :=
    foldl (λ rows b, rows ++ [html_row b]) [html_header_row] builds_in_branch_sorted in
  "<table border='1' cellpadding='4' cellspacing='0' style='border-collapse:collapse'>"
  +:+ join EmptyString rows +:+ "</table>".

(** The branches in the order their sections are rendered. *)
Definition branches_sorted (grouped : list (string * list Build)) : list string :=
  sorted_reverse (grouped_keys grouped).

(** ** The mail and the top level *)

(** The message handed to [smtp.sendmail] by [send_email_with_csv]: the
    headers, the HTML part and the attachment (the MIME encoding itself is
    the library's). *)
Record Mail := mkMail {
  mail_from : string;
  mail_to : string;
  mail_subject : string;
  mail_html_body : string;
  mail_attachment_filename : string;
  mail_attachment_payload : string;
}.

(** What a run does to the outside. *)
Inductive event : Type :=
| Sendmail (smtp_relay : string) (smtp_port : Z)
    (sender_email recipient_email : string) (msg : Mail)
| Print (line : string).

Definition is_sendmail (e : event) : bool :=
  match e with
  | Sendmail _ _ _ _ _ => true
  | Print _ => false
  end.

Definition send_email_with_csv (sender_email recipient_email subject
    html_body csv_content smtp_relay : string) (smtp_port : Z) : list event :=
  let msg :=
    {| mail_from := sender_email;
       mail_to := recipient_email;
       mail_subject := subject;
       mail_html_body := html_body;
       mail_attachment_filename := "builds_report.csv";
       mail_attachment_payload := csv_content |} in
  [Sendmail smtp_relay smtp_port sender_email recipient_email msg].

(** The values read from the environment in [__main__]. *)
Record Env := mkEnv {
  env_subject : string;
  env_sender : string;
  env_recipient : string;
  env_buildbot_url : string;
  env_smtp_relay : string;
  env_smtp_port : Z;
}.

(** [config["configuration"]]: ["branches"] is read with a subscript,
    ["builder_filter"] with [.get]. *)
Record Config := mkConfig {
  config_branches : list string;
  config_builder_filter : option (list string);
}.

(** An element of ["changes"]: [sourcestamp.branch], [sourcestamp.revision]
    and [builds]. *)
Record Change := mkChange {
  change_branch : string;
  change_revision : string;
  change_builds : list BuildRecord;
}.

(** The answers of the CI server during one run. *)
Record Server := mkServer {
  get_builders_details : list Builder;
  get_latest_builds_on_branch : string → list Change;
}.

(** [set(config["configuration"].get("builder_filter") or [])] *)
Definition filtered_builders_of (builder_filter : option (list string))
    : gset string :=
  list_to_set (default [] builder_filter).

(** [[builder for builder in builders
      if not filtered_builders or builder["name"] in filtered_builders]] *)
Definition filter_builders (filtered_builders : gset string)
    (builders : list Builder) : list Builder :=
  filter (λ builder,
            filtered_builders = ∅ ∨ builder_name builder ∈ filtered_builders)
         builders.

(** One turn of the loop over the configured branches. *)
Definition collect_step (server : Server) (builders : list Builder)
    (buildbot_url : string) (BUILDS : list Build) (branch : string)
    : list Build :=
  let changes := get_latest_builds_on_branch server branch in
  match changes with
  | change0 :: _ =>
      let builds :=
        join_builders_with_change builders (change_builds change0)
          (change_branch change0) (change_revision change0) buildbot_url in
      BUILDS ++ builds
  | [] => BUILDS
  end.

(** The rows gathered over all branches, [BUILDS]. *)
Definition all_builds (env : Env) (config : Config) (server : Server)
    : list Build :=
  let buildbot_url := env_buildbot_url env in
  let builders := get_builders_details server in
  let filtered_builders := filtered_builders_of (config_builder_filter config) in
  let builders := filter_builders filtered_builders builders in
  foldl (collect_step server builders buildbot_url) [] (config_branches config).

(** ** Notions used to state the properties *)

(** The build record the index keeps for an id: the last one of the input
    list that carries it. *)
Definition last_build_for (builderid : Z) (builds : list BuildRecord)
    : option BuildRecord :=
  last (filter (λ b, build_builderid b = builderid) builds).

(** A build record belongs to a builder. *)
Definition matches (builder : Builder) (build : BuildRecord) : Prop :=
  build_builderid build = builder_builderid builder.

Global Instance matches_dec builder build : Decision (matches builder build).
Proof. unfold matches. apply _. Defined.

(** The builder has a build record in the list. *)
Definition matched (builds : list BuildRecord) (builder : Builder) : Prop :=
  Exists (matches builder) builds.

Global Instance matched_dec builds builder : Decision (matched builds builder).
Proof. unfold matched. apply _. Defined.

(** The row a builder contributes, if any. *)
Definition row_of (branch revision buildbot_url : string)
    (builds : list BuildRecord) (builder : Builder) : option Build :=
  (λ build_data, make_build builder build_data branch revision buildbot_url)
    <$> last_build_for (builder_builderid builder) builds.

(** The mail events of a trace. *)
Definition mails (trace : list event) : list event :=
  filter (λ e, is_sendmail e = true) trace.

Definition success_signal : event :=
  Print "Grab a coffee and enjoy a bug free world!".

(** ** Reading CSV text back

    A reader of the [excel] dialect, used to say what the records of a CSV
    text are: outside quotes a comma ends a field and a line feed ends a
    record (the carriage return before it is dropped); a quote character
    opens a quoted section, inside which a doubled quote stands for one
    quote character and a single one closes the section. *)
Module CsvReader.

Inductive state : Type :=
| Plain        (* outside quotes *)
| Quoted       (* inside a quoted section *)
| QuoteSeen.   (* inside a quoted section, just after a quote character *)

(** What a character does outside quotes. *)
Definition plain_step (read : state → string → list string → list (list string))
    (c : ascii) (field : string) (fields : list string) : list (list string) :=
  if Ascii.eqb c Csv.quotechar then read Quoted field fields
  else if Ascii.eqb c Csv.delimiter then read Plain EmptyString (fields ++ [field])
  else if Ascii.eqb c CR then read Plain field fields
  else if Ascii.eqb c LF then (fields ++ [field]) :: read Plain EmptyString []
  else read Plain (field +:+ String c EmptyString) fields.

(** [field] is the current field so far, [fields] the fields of the
    current record so far. Text after the last line feed is dropped. *)
Fixpoint read_from (st : state) (field : string) (fields : list string)
    (text : string) : list (list string) :=
  match text with
  | EmptyString => []
  | String c text' =>
      let read st field fields := read_from st field fields text' in
      match st with
      | Plain => plain_step read c field fields
      | Quoted =>
          if Ascii.eqb c Csv.quotechar then read QuoteSeen field fields
          else read Quoted (field +:+ String c EmptyString) fields
      | QuoteSeen =>
          if Ascii.eqb c Csv.quotechar
          then read Quoted (field +:+ String c EmptyString) fields
          else plain_step read c field fields
      end
  end.

Definition read (text : string) : list (list string) :=
  read_from Plain EmptyString [] text.

End CsvReader.

(** [x] may stand before [y] in the output of [sorted] under the
    comparison [lt]: [y] is not smaller than [x]. *)
Definition not_after {A} (lt : A → A → bool) (x y : A) : Prop :=
  lt y x = false.

(** [x] occurs before [y] in [l]. *)
Definition precedes {A} (x y : A) (l : list A) : Prop :=
  ∃ l1 l2 l3, l = l1 ++ x :: l2 ++ y :: l3.

(** ** Sample inputs *)

Definition classifier_sample : list Build :=
  [mkBuild "b1" "http://bb/#/builders/1/builds/7" "abc" "main" (Some "BUILD Successful");
   mkBuild "b2" "http://bb/#/builders/2/builds/7" "abc" "main" (Some "timed out");
   mkBuild "b3" "http://bb/#/builders/3/builds/7" "abc" "main" (Some EmptyString);
   mkBuild "b4" "http://bb/#/builders/4/builds/7" "abc" "main" (Some "Building")].

Definition sample_env : Env :=
  mkEnv "Failed builds" "ci@example.com" "dev@example.com" "http://bb/"
        "smtp.example.com" 465.

Definition sample_config : Config := mkConfig ["main"; "dev"] None.

Definition sample_server : Server :=
  mkServer
    [mkBuilder 1 "B1"; mkBuilder 2 "B2"]
    (λ branch,
       if String.eqb branch "main"
       then [mkChange "main" "abc"
               [mkBuildRecord 1 (Some 42%Z) (Some "build successful");
                mkBuildRecord 2 (Some 43%Z) (Some "failed")]]
       else []).

(** Two failed rows, one on [main] and one on [dev]. *)
Definition html_sample : list Build :=
  [mkBuild "build-A" "http://x/A" "abc123" "main" (Some "failed");
   mkBuild "build-B" "http://x/B" "def456" "dev" (Some "failed")].

(** Every character of [s] passes the test [P]. *)
Fixpoint str_all (P : ascii → bool) (s : string) : bool :=
  match s with
  | EmptyString => true
  | String c s' => P c && str_all P s'
  end.

(** The characters of a decimal numeral: the digits and the minus sign. *)
Definition decimal_char (c : ascii) : bool :=
  Csv.char_in c "0123456789-".

(** [s.count(c)] for a character [c]. *)
Fixpoint count_char (c : ascii) (s : string) : nat :=
  match s with
  | EmptyString => 0
  | String d s' => (if Ascii.eqb d c then 1 else 0) + count_char c s'
  end.

(** The line feeds held by the fields of a row. *)
Definition row_line_feeds (b : Build) : nat :=
  sum_list (count_char LF ∘ Csv.field_data <$> csv_row b).

(** Two rows that the CSV text cannot tell apart: they agree on every
    column, a missing status counting as the empty one. *)
Definition same_csv_fields (b1 b2 : Build) : Prop :=
  branch b1 = branch b2 ∧ name b1 = name b2 ∧ commit b1 = commit b2
  ∧ Csv.field_data (status b1) = Csv.field_data (status b2)
  ∧ url b1 = url b2.

(** [sub in s] for two strings. *)
Definition str_contains (sub s : string) : Prop :=
  ∃ before after, s = before +:+ sub +:+ after.

(** ** The fetches *)

(** The JSON document of an answer of the CI server, as far as the code
    reads it: the keys ["builders"] and ["changes"], read with [.get] and a
    default, so each may be missing; a key that is there holds a list. *)
Record Json := mkJson {
  json_builders : option (list Builder);   (* data.get("builders", []) *)
  json_changes : option (list Change);     (* data.get("changes", []) *)
}.

(** The functions of the source that fetch, over [http], which gives
    [requests.get(url).json()] for each URL. *)
Module Api.

Definition get_builders_details (http : string → Json) (api_url : string)
    : list Builder :=
  let url := api_url +:+ "/builders" in
  let data := http url in
  let filtered := default [] (json_builders data) in
  filtered.

Definition get_latest_builds_on_branch (http : string → Json)
    (branch api_url : string) : list Change :=
  let url :=
    api_url +:+ "/changes?branch=" +:+ branch +:+ "&limit=1&order=-changeid" in
  let data := http url in
  let changes := default [] (json_changes data) in
  changes.

(** The answers a run gets from [http]. *)
Definition server (http : string → Json) (api_url : string) : Server :=
  mkServer (get_builders_details http api_url)
           (λ branch, get_latest_builds_on_branch http branch api_url).

End Api.

(** The rows one configured branch adds to [BUILDS]. *)
Definition branch_builds (env : Env) (config : Config) (server : Server)
    (branch : string) : list Build :=
  collect_step server
    (filter_builders (filtered_builders_of (config_builder_filter config))
       (get_builders_details server))
    (env_buildbot_url env) [] branch.

(** An answer of the CI server with one builder and, on [main], one change
    with a failed build; the roster URL answers without ["builders"] in the
    second. *)
Definition sample_http (url : string) : Json :=
  if String.eqb url "http://bb/api/v2/builders"
  then mkJson (Some [mkBuilder 1 "B1"]) None
  else if String.eqb url "http://bb/api/v2/changes?branch=main&limit=1&order=-changeid"
  then mkJson None
         (Some [mkChange "main" "abc"
                  [mkBuildRecord 1 (Some 42%Z) (Some "failed")]])
  else mkJson None None.


(** [sample_http], except at a URL the run does not ask for. *)
Definition sample_http_elsewhere (url : string) : Json :=
  if String.eqb url "http://bb/api/v2/workers"
  then mkJson (Some [mkBuilder 9 "B9"]) None
  else sample_http url.

(** ** The code that lowercases

    [lower] stands for [str.lower]. The definitions and the properties below
    hold for any such function; the few that look at particular ASCII
    strings assume [lowers_ascii lower]. *)

Section Lower.
Variable lower : string → string.

(** [v.lower()] where [v] is a [str] or [None]: [None] has no method
    [lower]. *)
Definition lower_method (v : option string) : result string :=
  match v with
  | Some s => Ok (lower s)
  | None => Raise (AttributeError "NoneType" "lower")
  end.

(** One turn of the list comprehension of [__main__]: [b.status.lower()] is
    evaluated, then the membership test decides whether [b] is kept. *)
Definition failed_step (acc : list Build) (b : Build) : result (list Build) :=
  s ← lower_method (status b);
  Ok (if negb (str_in s healthy_statuses) then acc ++ [b] else acc).

(** [[b for b in BUILDS if b.status.lower() not in [...]]]: the rows are
    visited in order, and the first exception ends the comprehension. *)
Definition failed_builds (BUILDS : list Build) : result (list Build) :=
  foldl (λ acc b, l ← acc; failed_step l b) (Ok []) BUILDS.

(** The rows of a branch in the order they are rendered. *)
Definition builds_in_branch_sorted (grouped : list (string * list Build))
    (branch : string) : list Build :=
  let builds_in_branch := grouped_get grouped branch in
  sorted_key (λ b, lower (name b)) builds_in_branch.

(** One turn of the loop over the sorted branches. *)
Definition html_branch_step (grouped : list (string * list Build))
    (html_parts : list string) (branch : string) : list string :=
  let html_parts := html_parts ++ ["<h3>Branch: " +:+ branch +:+ "</h3>"] in
  let html_parts := html_parts ++ [separator] in
  let table_html := html_table (builds_in_branch_sorted grouped branch) in
  let html_parts := html_parts ++ [table_html] in
  html_parts ++ [separator].

Definition builds_to_html_table (builds : list Build) : string :=
  let grouped := group_by_branch builds in
  let html_parts := foldl (html_branch_step grouped) [] (branches_sorted grouped) in
  join (String LF EmptyString) html_parts.

(** The last [if] of [__main__]. *)
Definition report (env : Env) (failed_builds : list Build) : list event :=
  match failed_builds with
  | _ :: _ =>
      let html_content := builds_to_html_table failed_builds in
      let csv_content := builds_to_csv failed_builds in
      send_email_with_csv (env_sender env) (env_recipient env) (env_subject env)
        html_content csv_content (env_smtp_relay env) (env_smtp_port env)
  | [] => [Print "Grab a coffee and enjoy a bug free world!"]
  end.

(** [__main__], from the fetch of the roster on. *)
Definition main (env : Env) (config : Config) (server : Server)
    : result (list event) :=
  let BUILDS := all_builds env config server in
  failed ← failed_builds BUILDS;
  Ok (report env failed).

(** The status of the row, lowercased, is one of the four markers of a
    build that is healthy or still running. A row without status is not. *)
Definition excluded (b : Build) : Prop :=
  match status b with
  | Some s =>
      lower s ∈ ["acquiring locks"; "building"; "build successful";
                 "preparing worker"]
  | None => False
  end.

Global Instance excluded_dec b : Decision (excluded b).
Proof. unfold excluded. destruct (status b); apply _. Defined.

(** The four parts a branch adds to the HTML text: heading, rule, table of
    the rows of the branch, rule. *)
Definition html_section (grouped : list (string * list Build))
    (branch : string) : list string :=
  ["<h3>Branch: " +:+ branch +:+ "</h3>";
   separator;
   html_table (builds_in_branch_sorted grouped branch);
   separator].

(** The sections of the HTML text: each branch rendered, in order, with the
    rows its table lists, in order. *)
Definition html_sections (builds : list Build) : list (string * list Build) :=
  let grouped := group_by_branch builds in
  (λ br, (br, builds_in_branch_sorted grouped br)) <$> branches_sorted grouped.

(** The text of sections given as a branch and its rows: per section the
    heading, a rule, the table with its header row and one row per build, a
    rule; all parts joined by line feeds. *)
Definition html_render_sections (sections : list (string * list Build))
    : string :=
  join (String LF EmptyString)
    (sections ≫= λ section,
       ["<h3>Branch: " +:+ section.1 +:+ "</h3>";
        separator;
        "<table border='1' cellpadding='4' cellspacing='0' style='border-collapse:collapse'>"
        +:+ join EmptyString (html_header_row :: (html_row <$> section.2))
        +:+ "</table>";
        separator]).

(** [__main__] with its fetches: [api_url = buildbot_url + "api/v2"]. *)
Definition run (env : Env) (config : Config) (http : string → Json)
    : result (list event) :=
  let buildbot_url := env_buildbot_url env in
  let api_url := buildbot_url +:+ "api/v2" in
  main env config (Api.server http api_url).

(** ** The join: lemmas *)

Section Join.
Context (branch revision buildbot_url : string).

Lemma build_map_of_snoc (builds : list BuildRecord) (b : BuildRecord) :
  build_map_of (builds ++ [b]) = <[build_builderid b := b]> (build_map_of builds).
Proof. unfold build_map_of. by rewrite foldl_snoc. Qed.

Lemma build_map_of_lookup (builds : list BuildRecord) (builderid : Z) :
  build_map_of builds !! builderid = last_build_for builderid builds.
Proof.
  unfold last_build_for.
  induction builds as [|b builds IH] using rev_ind; [done|].
  rewrite build_map_of_snoc, filter_app, filter_cons, filter_nil.
  case_decide as Hid.
  - subst builderid. by rewrite lookup_insert_eq, last_snoc.
  - by rewrite lookup_insert_ne, app_nil_r.
Qed.

Lemma last_build_for_Some (builds : list BuildRecord) (builderid : Z)
    (b : BuildRecord) :
  last_build_for builderid builds = Some b →
  b ∈ builds ∧ build_builderid b = builderid.
Proof.
  unfold last_build_for. intros Hlast.
  assert (b ∈ filter (λ b, build_builderid b = builderid) builds) as Hin.
  { rewrite last_lookup in Hlast. by eapply list_elem_of_lookup_2. }
  by apply list_elem_of_filter in Hin as [? ?].
Qed.

Lemma last_build_for_is_Some (builds : list BuildRecord) (builderid : Z) :
  is_Some (last_build_for builderid builds) ↔
  ∃ b, b ∈ builds ∧ build_builderid b = builderid.
Proof.
  split.
  - intros [b Hb]. exists b. by eapply last_build_for_Some.
  - intros (b & Hin & Hid). unfold last_build_for.
    rewrite last_is_Some. intros Hnil.
    assert (b ∈ filter (λ b, build_builderid b = builderid) builds) as Hf
      by by apply list_elem_of_filter.
    rewrite Hnil in Hf. by apply not_elem_of_nil in Hf.
Qed.

Lemma join_foldl (build_map : gmap Z BuildRecord) (builders : list Builder)
    (acc : list Build) :
  foldl (join_step build_map branch revision buildbot_url) acc builders
  = acc ++ omap (λ builder,
                   (λ bd, make_build builder bd branch revision buildbot_url)
                     <$> build_map !! builder_builderid builder) builders.
Proof.
  revert acc. induction builders as [|builder builders IH]; intros acc; simpl.
  - by rewrite app_nil_r.
  - rewrite IH. unfold join_step.
    destruct (build_map !! builder_builderid builder); simpl;
      [by rewrite <-app_assoc | done].
Qed.

Lemma join_omap (builders : list Builder) (builds : list BuildRecord) :
  join_builders_with_change builders builds branch revision buildbot_url
  = omap (row_of branch revision buildbot_url builds) builders.
Proof.
  unfold join_builders_with_change. rewrite join_foldl. simpl.
  induction builders as [|builder builders IH]; [done|]. csimpl.
  unfold row_of at 1. rewrite <-build_map_of_lookup, IH. done.
Qed.

Lemma row_of_is_Some (builds : list BuildRecord) (builder : Builder) :
  is_Some (row_of branch revision buildbot_url builds builder)
  ↔ matched builds builder.
Proof.
  unfold row_of, matched, matches. rewrite fmap_is_Some, last_build_for_is_Some.
  rewrite Exists_exists. done.
Qed.

End Join.

Lemma omap_length_filter {A B} (f : A → option B) (P : A → Prop)
    `{!∀ x, Decision (P x)} (l : list A) :
  (∀ x, is_Some (f x) ↔ P x) →
  length (omap f l) = length (filter P l).
Proof.
  intros HP. induction l as [|x l IH]; [done|]. csimpl.
  rewrite filter_cons. destruct (f x) as [y|] eqn:Hfx.
  - rewrite decide_True by (apply HP; eauto). simpl. by rewrite IH.
  - rewrite decide_False; [done|]. rewrite <-HP, Hfx. by intros [? ?].
Qed.

Lemma omap_Forall2_filter {A B} (f : A → option B) (P : A → Prop)
    `{!∀ x, Decision (P x)} (l : list A) :
  (∀ x, is_Some (f x) ↔ P x) →
  Forall2 (λ x y, f x = Some y) (filter P l) (omap f l).
Proof.
  intros HP. induction l as [|x l IH]; [constructor|]. csimpl.
  rewrite filter_cons. destruct (f x) as [y|] eqn:Hfx.
  - rewrite decide_True by (apply HP; eauto). by constructor.
  - rewrite decide_False; [done|]. rewrite <-HP, Hfx. by intros [? ?].
Qed.

(** ** The join: properties *)

(** C2. A row is produced exactly when a build record's [builderid] equals
    a builder's [builderid]: the result is non-empty iff there is such a
    pair; every row is the row of a builder and of a build record that
    match; a builder has a row iff it has a matching build record; and
    the rows are as many as the matched builders, so that a builder without
    build record and a build record without builder give no row. The join
    is a total function: no input makes it raise. *)
Theorem join_row_iff_match (builders : list Builder) (builds : list BuildRecord)
    (branch revision buildbot_url : string) :
  let rows :=
    join_builders_with_change builders builds branch revision buildbot_url in
  (rows ≠ [] ↔
     ∃ builder build,
       builder ∈ builders ∧ build ∈ builds ∧ matches builder build)
  ∧ (∀ row, row ∈ rows ↔
       ∃ builder build,
         builder ∈ builders ∧ build ∈ builds ∧ matches builder build
         ∧ last_build_for (builder_builderid builder) builds = Some build
         ∧ row = make_build builder build branch revision buildbot_url)
  ∧ (∀ builder, builder ∈ builders →
       ((∃ build, build ∈ builds ∧ matches builder build) ↔
        ∃ build, build ∈ builds ∧ matches builder build
                 ∧ make_build builder build branch revision buildbot_url ∈ rows))
  ∧ length rows = length (filter (matched builds) builders).
Proof.
  intros rows. subst rows. rewrite join_omap.
  assert (∀ row,
    row ∈ omap (row_of branch revision buildbot_url builds) builders ↔
    ∃ builder build,
      builder ∈ builders ∧ build ∈ builds ∧ matches builder build
      ∧ last_build_for (builder_builderid builder) builds = Some build
      ∧ row = make_build builder build branch revision buildbot_url) as Hrows.
  { intros row. rewrite list_elem_of_omap. split.
    - intros (builder & Hin & Hrow). unfold row_of in Hrow.
      destruct (last_build_for _ builds) as [build|] eqn:Hlast; [|done].
      simplify_eq/=. exists builder, build.
      apply last_build_for_Some in Hlast as Hb. destruct Hb as [? ?]. done.
    - intros (builder & build & Hin & _ & _ & Hlast & ->).
      exists builder. split; [done|]. unfold row_of. by rewrite Hlast. }
  assert (∀ builder, builder ∈ builders →
    (∃ build, build ∈ builds ∧ matches builder build) →
    ∃ build, build ∈ builds ∧ matches builder build
      ∧ make_build builder build branch revision buildbot_url
          ∈ omap (row_of branch revision buildbot_url builds) builders) as Hbuilder.
  { intros builder Hin Hex.
    destruct (proj2 (last_build_for_is_Some builds (builder_builderid builder)))
      as [build Hlast]; [done|].
    apply last_build_for_Some in Hlast as Hb. destruct Hb as [? ?].
    exists build. split_and!; [done..|]. apply Hrows. by exists builder, build. }
  split_and!.
  - split.
    + intros Hne. destruct (omap _ builders) as [|row rows] eqn:Hom; [done|].
      destruct (proj1 (Hrows row)) as (builder & build & ? & ? & ? & _).
      { by left. }
      by exists builder, build.
    + intros (builder & build & Hin & Hb & Hm).
      destruct (Hbuilder builder Hin) as (build' & _ & _ & Hrow); [by eauto|].
      intros Hnil. rewrite Hnil in Hrow. by apply not_elem_of_nil in Hrow.
  - done.
  - intros builder Hin. split; [by apply Hbuilder|].
    intros (build & ? & ? & _). by exists build.
  - apply omap_length_filter. intros builder. apply row_of_is_Some.
Qed.

(** C5. The index keeps, for each [builderid], the build record that comes
    last in the input list; a record followed by no other record of the same
    id is the one found; and with the single builder of id 1 and two build
    records of id 1, the second with [state_string] "X", the row has status
    "X". *)
Theorem build_map_last_write_wins :
  (∀ (builds : list BuildRecord) (builderid : Z),
     build_map_of builds !! builderid
     = last (filter (λ b, build_builderid b = builderid) builds))
  ∧ (∀ (builds1 builds2 : list BuildRecord) (b : BuildRecord),
       Forall (λ b', build_builderid b' ≠ build_builderid b) builds2 →
       build_map_of (builds1 ++ b :: builds2) !! build_builderid b = Some b)
  ∧ (∀ (number1 number2 : option Z) (state1 : option string)
       (branch revision buildbot_url : string),
       status <$> join_builders_with_change [mkBuilder 1 "B1"]
                    [mkBuildRecord 1 number1 state1;
                     mkBuildRecord 1 number2 (Some "X")]
                    branch revision buildbot_url
       = [Some "X"]).
Proof.
  split_and!.
  - intros builds builderid. apply build_map_of_lookup.
  - intros builds1 builds2 b Hlater.
    rewrite build_map_of_lookup. unfold last_build_for.
    rewrite filter_app, filter_cons, decide_True by done.
    assert (filter (λ b0, build_builderid b0 = build_builderid b) builds2 = [])
      as ->.
    { induction Hlater as [|b' builds2 Hne _ IH]; [done|].
      by rewrite filter_cons, decide_False. }
    by rewrite last_snoc.
  - intros. by rewrite join_omap.
Qed.

(** C9. Each builder gives at most one row, however many build records
    carry its id: the rows are, one for one and in roster order, the rows
    of the builders that have a build record; hence there are no more rows
    than builders, and the names of the rows are a subsequence of the names
    of the roster. *)
Theorem join_one_row_per_builder_in_order (builders : list Builder)
    (builds : list BuildRecord) (branch revision buildbot_url : string) :
  let rows :=
    join_builders_with_change builders builds branch revision buildbot_url in
  length rows ≤ length builders
  ∧ filter (matched builds) builders `sublist_of` builders
  ∧ Forall2 (λ builder row,
               ∃ build, last_build_for (builder_builderid builder) builds = Some build
                        ∧ row = make_build builder build branch revision buildbot_url)
            (filter (matched builds) builders) rows
  ∧ name <$> rows `sublist_of` builder_name <$> builders.
Proof.
  intros rows. subst rows. rewrite join_omap.
  pose proof (omap_Forall2_filter (row_of branch revision buildbot_url builds)
                (matched builds) builders
                (row_of_is_Some branch revision buildbot_url builds)) as Hrows.
  assert (name <$> omap (row_of branch revision buildbot_url builds) builders
          = builder_name <$> filter (matched builds) builders) as Hnames.
  { induction Hrows as [|builder row kept rows Hrow _ IH]; [done|].
    csimpl. rewrite IH. f_equal. unfold row_of in Hrow.
    destruct (last_build_for _ builds); by simplify_eq/=. }
  split_and!.
  - rewrite <-(Forall2_length _ _ _ Hrows).
    apply sublist_length, sublist_filter.
  - apply sublist_filter.
  - eapply Forall2_impl; [exact Hrows|]. intros builder row Hrow.
    unfold row_of in Hrow.
    destruct (last_build_for _ builds) as [build|]; [|done].
    simplify_eq/=. by exists build.
  - rewrite Hnames. apply fmap_sublist, sublist_filter.
Qed.

(** ** The failed builds: lemmas *)

Lemma str_in_elem_of (x : string) (xs : list string) :
  str_in x xs = true ↔ x ∈ xs.
Proof.
  unfold str_in. induction xs as [|y xs IH]; simpl.
  - split; [done|]. by intros ?%not_elem_of_nil.
  - rewrite orb_true_iff, IH, elem_of_cons, String.eqb_eq. done.
Qed.

Lemma failed_step_status (acc : list Build) (b : Build) (s : string) :
  status b = Some s →
  failed_step acc b = Ok (acc ++ filter (λ b, ¬ excluded b) [b]).
Proof.
  intros Hs.
  assert (str_in (lower s) healthy_statuses = true ↔ excluded b) as Hiff.
  { unfold excluded. rewrite Hs. apply str_in_elem_of. }
  unfold failed_step. rewrite Hs. cbn [lower_method mbind result_bind].
  f_equal. rewrite filter_cons, filter_nil.
  destruct (str_in (lower s) healthy_statuses); simpl.
  - rewrite decide_False by tauto. by rewrite app_nil_r.
  - rewrite decide_True; [done|]. intros Hex. apply Hiff in Hex. done.
Qed.

Lemma failed_builds_foldl_Ok (BUILDS : list Build) (acc : list Build) :
  Forall (λ b, is_Some (status b)) BUILDS →
  foldl (λ acc b, l ← acc; failed_step l b) (Ok acc) BUILDS
  = Ok (acc ++ filter (λ b, ¬ excluded b) BUILDS).
Proof.
  intros Hall. revert acc.
  induction Hall as [|b BUILDS [s Hs] _ IH]; intros acc; simpl.
  - by rewrite app_nil_r.
  - rewrite (failed_step_status acc b s Hs), IH, <-app_assoc.
    by rewrite <-filter_app.
Qed.

Lemma failed_builds_foldl_Raise (BUILDS : list Build) (e : exn) :
  foldl (λ acc b, l ← acc; failed_step l b) (Raise e) BUILDS = Raise e.
Proof. induction BUILDS as [|b BUILDS IH]; [done|]. simpl. exact IH. Qed.

Lemma failed_builds_foldl_None (BUILDS : list Build) (acc : list Build) :
  Exists (λ b, status b = None) BUILDS →
  foldl (λ acc b, l ← acc; failed_step l b) (Ok acc) BUILDS
  = Raise (AttributeError "NoneType" "lower").
Proof.
  revert acc. induction BUILDS as [|b BUILDS IH]; intros acc Hex.
  - by apply Exists_nil in Hex.
  - simpl. destruct (status b) as [s|] eqn:Hs.
    + rewrite (failed_step_status acc b s Hs). apply IH.
      apply Exists_cons in Hex as [Hb|Hex]; [congruence|done].
    + unfold failed_step. rewrite Hs. simpl.
      apply failed_builds_foldl_Raise.
Qed.

Lemma failed_builds_Ok (BUILDS : list Build) :
  Forall (λ b, is_Some (status b)) BUILDS →
  failed_builds BUILDS = Ok (filter (λ b, ¬ excluded b) BUILDS).
Proof. intros Hall. unfold failed_builds. by rewrite failed_builds_foldl_Ok. Qed.

Lemma failed_builds_all_excluded (BUILDS : list Build) :
  Forall excluded BUILDS → failed_builds BUILDS = Ok [].
Proof.
  intros Hall. rewrite failed_builds_Ok.
  - f_equal. induction Hall as [|b BUILDS Hb _ IH]; [done|].
    rewrite filter_cons, decide_False by tauto. done.
  - eapply Forall_impl; [exact Hall|]. intros b. unfold excluded.
    destruct (status b); [eauto|done].
Qed.

(** ** The failed builds: properties *)

(** C1. On rows that carry a status string, the failed builds are exactly
    the rows whose lowercased status is none of "acquiring locks",
    "building", "build successful", "preparing worker", in the order of the
    input: a row whose status is "Build Successful" in any letter case is
    left out, and a row with any other status is kept, the empty status and
    "timed out" among them. The first part holds whatever [str.lower] does to
    each string; the examples use what it does to ASCII text. *)
Theorem failed_builds_denylist (BUILDS : list Build) :
  Forall (λ b, is_Some (status b)) BUILDS →
  ∃ failed,
    failed_builds BUILDS = Ok failed
    ∧ failed = filter (λ b, ¬ excluded b) BUILDS
    ∧ (∀ b, b ∈ failed ↔
         b ∈ BUILDS ∧
         ∃ s, status b = Some s ∧
              lower s ∉ ["acquiring locks"; "building"; "build successful";
                         "preparing worker"])
    ∧ (lowers_ascii lower →
       (∀ b s, b ∈ BUILDS → status b = Some s →
          lower s = lower "Build Successful" → b ∉ failed)
       ∧ (∀ b, b ∈ BUILDS → status b = Some EmptyString → b ∈ failed)
       ∧ (∀ b, b ∈ BUILDS → status b = Some "timed out" → b ∈ failed)).
Proof.
  intros Hall. exists (filter (λ b, ¬ excluded b) BUILDS).
  assert (∀ b, b ∈ filter (λ b, ¬ excluded b) BUILDS ↔
            b ∈ BUILDS ∧
            ∃ s, status b = Some s ∧
                 lower s ∉ ["acquiring locks"; "building"; "build successful";
                            "preparing worker"]) as Hmem.
  { intros b. rewrite list_elem_of_filter. unfold excluded. split.
    - intros [Hne Hin]. split; [done|].
      rewrite Forall_forall in Hall. destruct (Hall b Hin) as [s Hs].
      rewrite Hs in Hne. by exists s.
    - intros [Hin (s & Hs & Hne)]. rewrite Hs. done. }
  split_and!; [by apply failed_builds_Ok|done|done|].
  intros Hlaw. split_and!.
  - intros b s Hin Hs Hlow. rewrite Hmem. intros [_ (s' & Hs' & Hne)].
    simplify_eq. apply Hne. rewrite Hlow, Hlaw by done.
    by apply str_in_elem_of.
  - intros b Hin Hs. apply Hmem. split; [done|]. eexists. split; [done|].
    rewrite Hlaw by done. by intros Hex%str_in_elem_of.
  - intros b Hin Hs. apply Hmem. split; [done|]. eexists. split; [done|].
    rewrite Hlaw by done. by intros Hex%str_in_elem_of.
Qed.

(** A row without status makes the comprehension raise, wherever it is. *)
Lemma failed_builds_None_raises (BUILDS : list Build) :
  Exists (λ b, status b = None) BUILDS →
  failed_builds BUILDS = Raise (AttributeError "NoneType" "lower").
Proof. apply failed_builds_foldl_None. Qed.

(** Whenever the record kept for some builder of the roster has no
    [state_string], the selection of the failed builds raises on the joined
    rows. *)
Lemma join_absent_state_string_raises (builders : list Builder)
    (builds : list BuildRecord) (branch revision buildbot_url : string)
    (builder : Builder) (build : BuildRecord) :
  builder ∈ builders →
  last_build_for (builder_builderid builder) builds = Some build →
  build_state_string build = None →
  failed_builds
    (join_builders_with_change builders builds branch revision buildbot_url)
  = Raise (AttributeError "NoneType" "lower").
Proof.
  intros Hin Hlast Hnone. apply failed_builds_None_raises, Exists_exists.
  exists (make_build builder build branch revision buildbot_url).
  split; [|exact Hnone].
  rewrite join_omap. apply list_elem_of_omap. exists builder.
  split; [done|]. unfold row_of. by rewrite Hlast.
Qed.

(** C4. A build record without [state_string] that matches a builder gives
    a row, whose status is [None]; on that row the selection of the failed
    builds raises [AttributeError] instead of returning. *)
Theorem absent_state_string_row_raises :
  let rows :=
    join_builders_with_change [mkBuilder 1 "B1"] [mkBuildRecord 1 (Some 42%Z) None]
      "main" "abc" "http://bb/" in
  rows = [mkBuild "B1" "http://bb/#/builders/1/builds/42" "abc" "main" None]
  ∧ failed_builds rows = Raise (AttributeError "NoneType" "lower").
Proof. split; by vm_compute. Qed.

(** ** The builder filter *)

Lemma list_filter_all {A} (P : A → Prop) `{!∀ x, Decision (P x)} (l : list A) :
  (∀ x, P x) → filter P l = l.
Proof.
  intros HP. induction l as [|x l IH]; [done|].
  by rewrite filter_cons, decide_True, IH.
Qed.

(** C8. Without allow-list, or with the empty one, the roster is kept as
    it is; with a non-empty allow-list the builders kept are exactly those
    whose name is in the list, in roster order. *)
Theorem builder_filter_allow_list (builders : list Builder) :
  filter_builders (filtered_builders_of None) builders = builders
  ∧ filter_builders (filtered_builders_of (Some [])) builders = builders
  ∧ (∀ allow : list string, allow ≠ [] →
       filter_builders (filtered_builders_of (Some allow)) builders
       = filter (λ builder, builder_name builder ∈ allow) builders).
Proof.
  split_and!.
  - apply list_filter_all. intros builder. by left.
  - apply list_filter_all. intros builder. by left.
  - intros allow Hne. unfold filter_builders, filtered_builders_of. simpl.
    apply list_filter_iff. intros builder.
    rewrite elem_of_list_to_set. split; [|by right].
    intros [Hempty|Hin]; [|done]. destruct allow as [|a allow]; [done|].
    exfalso. assert (a ∈ (list_to_set (a :: allow) : gset string)) as Ha
      by (apply elem_of_list_to_set; by left).
    rewrite Hempty in Ha. by apply not_elem_of_empty in Ha.
Qed.

(** ** The top level *)

(** C3. When the selection of the failed builds returns the empty list, the
    run makes no mail-send call and ends with the success message; when it
    returns a non-empty list, the run makes exactly one mail-send call, whose
    message has the HTML rendering as body and the CSV rendering as the
    attachment [builds_report.csv]. A cycle whose rows are all healthy sends
    no mail. *)
Theorem main_one_mail_iff_failures (env : Env) (config : Config)
    (server : Server) (failed : list Build) :
  failed_builds (all_builds env config server) = Ok failed →
  ∃ trace,
    main env config server = Ok trace
    ∧ (failed = [] → trace = [success_signal] ∧ mails trace = [])
    ∧ (failed ≠ [] →
         ∃ msg,
           trace = [Sendmail (env_smtp_relay env) (env_smtp_port env)
                      (env_sender env) (env_recipient env) msg]
           ∧ mails trace = trace
           ∧ mail_html_body msg = builds_to_html_table failed
           ∧ mail_attachment_payload msg = builds_to_csv failed
           ∧ mail_attachment_filename msg = "builds_report.csv")
    ∧ (Forall excluded (all_builds env config server) → mails trace = []).
Proof.
  intros Hfailed. exists (report env failed).
  assert (failed = [] → report env failed = [success_signal]
                        ∧ mails (report env failed) = []) as Hquiet.
  { by intros ->. }
  split_and!.
  - unfold main. by rewrite Hfailed.
  - exact Hquiet.
  - intros Hne. destruct failed as [|b failed]; [done|].
    eexists. split_and!; reflexivity.
  - intros Hgreen. apply failed_builds_all_excluded in Hgreen.
    rewrite Hgreen in Hfailed. simplify_eq. by apply Hquiet.
Qed.

(** ** Strings *)

Lemma str_app_cons (c : ascii) (s1 s2 : string) :
  String c s1 +:+ s2 = String c (s1 +:+ s2).
Proof. done. Qed.

Lemma str_app_assoc (s1 s2 s3 : string) :
  (s1 +:+ s2) +:+ s3 = s1 +:+ (s2 +:+ s3).
Proof.
  induction s1 as [|c s1 IH]; [done|]. by rewrite !str_app_cons, IH.
Qed.

Lemma str_app_nil_r (s : string) : s +:+ EmptyString = s.
Proof. induction s as [|c s IH]; [done|]. by rewrite str_app_cons, IH. Qed.

Lemma str_app_snoc (s1 s2 : string) (c : ascii) :
  (s1 +:+ String c EmptyString) +:+ s2 = s1 +:+ String c s2.
Proof. by rewrite str_app_assoc. Qed.

Lemma join_empty_cons (p : string) (ps : list string) :
  join EmptyString (p :: ps) = p +:+ join EmptyString ps.
Proof. destruct ps; simpl; [by rewrite str_app_nil_r|done]. Qed.

(** ** The CSV rendering: lemmas *)

Section CsvRoundTrip.
Import Csv CsvReader.

Lemma special_false (c : ascii) :
  special c = false →
  Ascii.eqb c quotechar = false ∧ Ascii.eqb c delimiter = false
  ∧ Ascii.eqb c CR = false ∧ Ascii.eqb c LF = false.
Proof.
  unfold special, lineterminator. simpl.
  rewrite !orb_false_iff. tauto.
Qed.

(** An unquoted field is read as it is. *)
Lemma read_plain (s rest field : string) (fields : list string) :
  has_special s = false →
  read_from Plain field fields (s +:+ rest)
  = read_from Plain (field +:+ s) fields rest.
Proof.
  revert field. induction s as [|c s IH]; intros field Hs.
  - by rewrite str_app_nil_r.
  - simpl in Hs. apply orb_false_iff in Hs as [Hc Hs].
    apply special_false in Hc as (Hq & Hd & Hcr & Hlf).
    rewrite str_app_cons. cbn [read_from]. unfold plain_step.
    rewrite Hq, Hd, Hcr, Hlf, IH by done. by rewrite str_app_snoc.
Qed.

(** Inside quotes the copied data is read back as the data. *)
Lemma read_quoted (s rest field : string) (fields : list string) :
  read_from Quoted field fields (copy_data s +:+ rest)
  = read_from Quoted (field +:+ s) fields rest.
Proof.
  revert field. induction s as [|c s IH]; intros field.
  - by rewrite str_app_nil_r.
  - cbn [copy_data]. destruct (Ascii.eqb c quotechar) eqn:Hq.
    + apply Ascii.eqb_eq in Hq as ->.
      rewrite !str_app_cons. cbn [read_from].
      rewrite Ascii.eqb_refl, IH. by rewrite str_app_snoc.
    + rewrite str_app_cons. cbn [read_from].
      rewrite Hq, IH. by rewrite str_app_snoc.
Qed.

(** A field followed by the delimiter. *)
Lemma read_field_delimiter (v : option string) (rest : string)
    (fields : list string) :
  read_from Plain EmptyString fields (field v +:+ String delimiter rest)
  = read_from Plain EmptyString (fields ++ [field_data v]) rest.
Proof.
  unfold field. destruct (has_special (field_data v)) eqn:Hs.
  - unfold quoted. rewrite str_app_cons. cbn [read_from]. unfold plain_step at 1.
    rewrite Ascii.eqb_refl, str_app_assoc, read_quoted. done.
  - rewrite read_plain by done. done.
Qed.

(** A field followed by the line terminator. *)
Lemma read_field_lineterminator (v : option string) (rest : string)
    (fields : list string) :
  read_from Plain EmptyString fields (field v +:+ lineterminator +:+ rest)
  = (fields ++ [field_data v]) :: read_from Plain EmptyString [] rest.
Proof.
  unfold field. destruct (has_special (field_data v)) eqn:Hs.
  - unfold quoted. rewrite str_app_cons. cbn [read_from]. unfold plain_step at 1.
    rewrite Ascii.eqb_refl, str_app_assoc, read_quoted. done.
  - rewrite read_plain by done. done.
Qed.

(** The fields of a record, followed by the line terminator. *)
Lemma read_fields (row : list (option string)) (rest : string)
    (fields : list string) :
  row ≠ [] →
  read_from Plain EmptyString fields
    (join (String delimiter EmptyString) (field <$> row)
     +:+ lineterminator +:+ rest)
  = (fields ++ (field_data <$> row)) :: read_from Plain EmptyString [] rest.
Proof.
  revert fields. induction row as [|v row IH]; intros fields Hne; [done|].
  destruct row as [|v' row].
  - apply read_field_lineterminator.
  - change (join (String delimiter EmptyString) (field <$> v :: v' :: row))
      with (field v +:+ String delimiter EmptyString
            +:+ join (String delimiter EmptyString) (field <$> v' :: row)).
    rewrite !str_app_assoc, str_app_cons.
    change (EmptyString +:+ ?s) with s.
    rewrite read_field_delimiter, IH by done.
    by rewrite <-app_assoc.
Qed.

Lemma read_record (row : list (option string)) (rest : string) :
  row ≠ [] →
  read_from Plain EmptyString [] (record row +:+ rest)
  = (field_data <$> row) :: read_from Plain EmptyString [] rest.
Proof.
  intros Hne. pose proof (read_fields row rest [] Hne) as Hread.
  unfold record. destruct row as [|v [|v' row]]; [done| |].
  - simpl in *. destruct (field v) as [|c s] eqn:Hfield.
    + unfold field in Hfield.
      destruct (has_special (field_data v)); [done|]. by rewrite Hfield.
    + by rewrite str_app_assoc.
  - rewrite str_app_assoc. exact Hread.
Qed.

Lemma read_records (rows : list (list (option string))) :
  Forall (λ row, row ≠ []) rows →
  read (join EmptyString (record <$> rows))
  = (λ row : list (option string), field_data <$> row) <$> rows.
Proof.
  unfold read. induction 1 as [|row rows Hne _ IH]; [done|].
  rewrite fmap_cons, join_empty_cons, read_record, IH by done. done.
Qed.

End CsvRoundTrip.

Lemma builds_to_csv_foldl (builds : list Build) (output : string) :
  foldl (λ output b, Csv.writerow output (csv_row b)) output builds
  = output +:+ join EmptyString ((λ b, Csv.record (csv_row b)) <$> builds).
Proof.
  revert output. induction builds as [|b builds IH]; intros output.
  - simpl. by rewrite str_app_nil_r.
  - rewrite fmap_cons, join_empty_cons. simpl. rewrite IH.
    unfold Csv.writerow. by rewrite str_app_assoc.
Qed.

(** ** The CSV rendering: properties *)

(** C7. The CSV text is the header line [Branch,Build,Commit,Status,URL]
    followed by the record of each row, in the order of the rows; read
    back, it has the header and then exactly one record per row, with the
    fields of that row, in the same order. *)
Theorem builds_to_csv_header_then_rows (builds : list Build) :
  builds_to_csv builds
  = "Branch,Build,Commit,Status,URL" +:+ Csv.lineterminator
    +:+ join EmptyString ((λ b, Csv.record (csv_row b)) <$> builds)
  ∧ CsvReader.read (builds_to_csv builds)
    = ["Branch"; "Build"; "Commit"; "Status"; "URL"]
      :: ((λ b, [branch b; name b; commit b; Csv.field_data (status b); url b])
            <$> builds)
  ∧ length (CsvReader.read (builds_to_csv builds)) = S (length builds).
Proof.
  assert (builds_to_csv builds
          = join EmptyString (Csv.record <$> (csv_header :: (csv_row <$> builds))))
    as Hcsv.
  { unfold builds_to_csv. rewrite builds_to_csv_foldl.
    rewrite fmap_cons, join_empty_cons, <-list_fmap_compose. done. }
  assert (CsvReader.read (builds_to_csv builds)
          = ["Branch"; "Build"; "Commit"; "Status"; "URL"]
            :: ((λ b, [branch b; name b; commit b; Csv.field_data (status b);
                       url b]) <$> builds)) as Hread.
  { rewrite Hcsv, read_records.
    - rewrite fmap_cons, <-list_fmap_compose. done.
    - constructor; [done|]. apply Forall_fmap, Forall_forall. by intros b _. }
  split_and!.
  - unfold builds_to_csv. by rewrite builds_to_csv_foldl.
  - exact Hread.
  - rewrite Hread. simpl. by rewrite length_fmap.
Qed.

(** ** Sorting: lemmas *)

Section SortedLemmas.
Context {A : Type} (lt : A → A → bool).
Hypothesis lt_asym : ∀ x y, lt x y = true → lt y x = false.

Lemma insert_sorted_Permutation (x : A) (l : list A) :
  insert_sorted lt x l ≡ₚ x :: l.
Proof.
  induction l as [|y l IH]; [done|]. simpl.
  destruct (lt y x); [|done]. rewrite IH. apply Permutation_swap.
Qed.

Lemma sorted_Permutation (l : list A) : sorted lt l ≡ₚ l.
Proof.
  induction l as [|x l IH]; [done|]. unfold sorted in *. simpl.
  by rewrite insert_sorted_Permutation, IH.
Qed.

Lemma insert_sorted_HdRel (x y : A) (l : list A) :
  (not_after lt) y x → HdRel (not_after lt) y l →
  HdRel (not_after lt) y (insert_sorted lt x l).
Proof.
  intros Hyx Hhd. destruct l as [|z l]; simpl; [by constructor|].
  destruct (lt z x); constructor; [|done]. by inversion Hhd.
Qed.

Lemma insert_sorted_Sorted (x : A) (l : list A) :
  Sorted (not_after lt) l → Sorted (not_after lt) (insert_sorted lt x l).
Proof.
  induction 1 as [|y l Hsorted IH Hhd]; simpl.
  - by repeat constructor.
  - destruct (lt y x) eqn:Hyx.
    + constructor; [done|]. apply insert_sorted_HdRel; [|done].
      by apply lt_asym.
    + constructor; [by constructor|]. by constructor.
Qed.

Lemma sorted_Sorted (l : list A) : Sorted (not_after lt) (sorted lt l).
Proof.
  induction l as [|x l IH]; [constructor|].
  unfold sorted in *. simpl. by apply insert_sorted_Sorted.
Qed.

(** [sorted] is stable: the elements of a class that the comparison does
    not tell apart come out in their input order. *)
Lemma insert_sorted_filter (P : A → Prop) `{!∀ x, Decision (P x)}
    (x : A) (l : list A) :
  (∀ y, P x → P y → lt y x = false) →
  filter P (insert_sorted lt x l) = filter P (x :: l).
Proof.
  intros HP. induction l as [|y l IH]; [done|]. simpl.
  destruct (lt y x) eqn:Hyx; [|done].
  rewrite (filter_cons _ y), IH, !filter_cons.
  destruct (decide (P x)) as [Hx|], (decide (P y)) as [Hy|]; try done.
  by rewrite (HP y Hx Hy) in Hyx.
Qed.

Lemma sorted_stable (P : A → Prop) `{!∀ x, Decision (P x)} (l : list A) :
  (∀ x y, P x → P y → lt y x = false) →
  filter P (sorted lt l) = filter P l.
Proof.
  intros HP. induction l as [|x l IH]; [done|].
  unfold sorted in *. simpl. rewrite insert_sorted_filter by auto.
  by rewrite !filter_cons, IH.
Qed.

End SortedLemmas.

Lemma Sorted_mono {A} (R1 R2 : relation A) (l : list A) :
  (∀ x y, R1 x y → R2 x y) → Sorted R1 l → Sorted R2 l.
Proof.
  intros HR. induction 1 as [|x l _ IH Hhd]; constructor; [done|].
  destruct Hhd; constructor. by apply HR.
Qed.

(** The order of [str]. *)

Lemma ltb_asym (x y : string) : String.ltb x y = true → String.ltb y x = false.
Proof.
  unfold String.ltb. rewrite (String.compare_antisym y x).
  by destruct (String.compare x y).
Qed.

Lemma ltb_false_leb (x y : string) :
  String.ltb y x = false ↔ String.leb x y = true.
Proof.
  unfold String.ltb, String.leb. rewrite (String.compare_antisym y x).
  by destruct (String.compare x y).
Qed.

Lemma leb_neq_ltb (x y : string) :
  String.leb x y = true → x ≠ y → String.ltb x y = true.
Proof.
  unfold String.ltb, String.leb. intros Hle Hne.
  destruct (String.compare x y) eqn:Hc; [|done..].
  by apply String.compare_eq_iff in Hc.
Qed.

Lemma leb_trans (x y z : string) :
  String.leb x y = true → String.leb y z = true → String.leb x z = true.
Proof.
  intros Hxy%Is_true_true Hyz%Is_true_true. apply Is_true_true.
  change (String.le x z). by transitivity y.
Qed.

(** [sorted(l, key=key)] is ascending in the keys. *)
Lemma sorted_key_ascending {A} (key : A → string) (l : list A) :
  StronglySorted (λ x y, String.leb (key x) (key y) = true) (sorted_key key l).
Proof.
  apply Sorted_StronglySorted.
  { intros x y z. apply leb_trans. }
  eapply Sorted_mono; [|apply sorted_Sorted].
  - intros x y Hxy. by apply ltb_false_leb.
  - intros x y. apply ltb_asym.
Qed.

(** [sorted(l, reverse=True)], on distinct strings, is strictly
    descending. *)
Lemma sorted_reverse_descending (l : list string) :
  NoDup l →
  StronglySorted (λ x y, String.ltb y x = true) (sorted_reverse l).
Proof.
  intros Hnodup.
  assert (StronglySorted (λ x y, String.leb y x = true) (sorted_reverse l))
    as Hsorted.
  { apply Sorted_StronglySorted.
    { intros x y z Hxy Hyz. by eapply leb_trans. }
    eapply Sorted_mono; [|apply sorted_Sorted].
    - intros x y Hxy. by apply ltb_false_leb.
    - intros x y. apply ltb_asym. }
  assert (NoDup (sorted_reverse l)) as Hnodup'.
  { unfold sorted_reverse. by rewrite sorted_Permutation. }
  clear Hnodup. induction Hsorted as [|x l' Hsorted IH Hall]; [constructor|].
  apply NoDup_cons in Hnodup' as [Hx Hnodup'].
  constructor; [by apply IH|].
  rewrite Forall_forall in Hall |- *. intros y Hy.
  apply leb_neq_ltb; [by apply Hall|]. intros ->. done.
Qed.

(** ** The HTML rendering: lemmas *)

Lemma grouped_get_append (grouped : list (string * list Build))
    (key key' : string) (b : Build) :
  grouped_get (grouped_append grouped key b) key'
  = if decide (key = key') then grouped_get grouped key' ++ [b]
    else grouped_get grouped key'.
Proof.
  induction grouped as [|[k bs] grouped IH]; simpl.
  - destruct (String.eqb_spec key key'); by case_decide.
  - destruct (String.eqb_spec k key) as [->|Hk]; simpl.
    + destruct (String.eqb_spec key key'); by case_decide.
    + rewrite IH.
      destruct (String.eqb_spec k key') as [->|Hk']; [|done].
      case_decide; [congruence|done].
Qed.

Lemma grouped_keys_append (grouped : list (string * list Build))
    (key : string) (b : Build) :
  grouped_keys (grouped_append grouped key b)
  = if decide (key ∈ grouped_keys grouped) then grouped_keys grouped
    else grouped_keys grouped ++ [key].
Proof.
  unfold grouped_keys. induction grouped as [|[k bs] grouped IH]; [done|].
  cbn [grouped_append].
  destruct (String.eqb_spec k key) as [->|Hk]; rewrite !fmap_cons; cbn [fst].
  - rewrite decide_True; [done|]. by left.
  - rewrite IH. case_decide as Hin.
    + rewrite decide_True; [done|]. by right.
    + rewrite decide_False; [done|].
      rewrite elem_of_cons. intros [?|?]; by simplify_eq.
Qed.

Lemma group_by_branch_snoc (builds : list Build) (b : Build) :
  group_by_branch (builds ++ [b])
  = grouped_append (group_by_branch builds) (branch b) b.
Proof. unfold group_by_branch. by rewrite foldl_snoc. Qed.

(** The bucket of a branch holds the rows of that branch, in input order. *)
Lemma group_by_branch_get (builds : list Build) (br : string) :
  grouped_get (group_by_branch builds) br = filter (λ b, branch b = br) builds.
Proof.
  induction builds as [|b builds IH] using rev_ind; [done|].
  rewrite group_by_branch_snoc, grouped_get_append, IH, filter_app.
  rewrite filter_cons, filter_nil.
  case_decide; [done|by rewrite app_nil_r].
Qed.

(** The keys are the branches of the rows, each once. *)
Lemma group_by_branch_keys (builds : list Build) :
  NoDup (grouped_keys (group_by_branch builds))
  ∧ ∀ br, br ∈ grouped_keys (group_by_branch builds)
          ↔ ∃ b, b ∈ builds ∧ branch b = br.
Proof.
  induction builds as [|b builds [IHnodup IHin]] using rev_ind.
  - split; [constructor|]. intros br. split.
    + by intros ?%not_elem_of_nil.
    + intros (b & ?%not_elem_of_nil & _). done.
  - rewrite group_by_branch_snoc, grouped_keys_append. split.
    + case_decide; [done|]. apply NoDup_app. split_and!; [done| |].
      * intros br Hbr ->%list_elem_of_singleton. done.
      * apply NoDup_singleton.
    + intros br.
      assert ((∃ b', b' ∈ builds ++ [b] ∧ branch b' = br)
              ↔ br ∈ grouped_keys (group_by_branch builds) ∨ br = branch b)
        as ->.
      { setoid_rewrite elem_of_app. setoid_rewrite list_elem_of_singleton.
        rewrite IHin. split.
        - intros (b' & [Hb'| ->] & Hbr); [left; by exists b'|by right].
        - intros [(b' & Hb' & Hbr)| ->]; [exists b'|exists b]; auto. }
      case_decide as Hin.
      * split; [by left|]. by intros [?| ->].
      * by rewrite elem_of_app, list_elem_of_singleton.
Qed.

Lemma foldl_snoc_fmap {A B} (f : A → B) (init : list B) (l : list A) :
  foldl (λ acc x, acc ++ [f x]) init l = init ++ (f <$> l).
Proof.
  revert init. induction l as [|x l IH]; intros init; simpl.
  - by rewrite app_nil_r.
  - by rewrite IH, <-app_assoc.
Qed.

Lemma html_parts_foldl (grouped : list (string * list Build))
    (html_parts : list string) (branches : list string) :
  foldl (html_branch_step grouped) html_parts branches
  = html_parts ++ (branches ≫= html_section grouped).
Proof.
  revert html_parts.
  induction branches as [|br branches IH]; intros html_parts; simpl.
  - by rewrite app_nil_r.
  - rewrite IH. unfold html_branch_step, html_section.
    rewrite <-!app_assoc. done.
Qed.

Lemma html_table_rows (rows : list Build) :
  html_table rows
  = "<table border='1' cellpadding='4' cellspacing='0' style='border-collapse:collapse'>"
    +:+ join EmptyString (html_header_row :: (html_row <$> rows))
    +:+ "</table>".
Proof. unfold html_table. by rewrite foldl_snoc_fmap. Qed.

(** ** The HTML rendering: properties *)

(** C6, as the code has it. The HTML text is made of one section per
    branch of the rows (heading, rule, table, rule), the branches in
    strictly descending order of their names as strings; the table of a
    branch has the header row and then the rows of that branch in ascending
    order of their lowercased names, whatever [str.lower] does to each
    name. For the branches "main" and "dev" the section of [main] comes
    first, then the section of [dev]; in a branch with the builders "b" and
    "A", the row of A comes before the row of b, by what [str.lower] does to
    ASCII text. *)
Theorem html_branches_descending_names_ascending (builds : list Build) :
  let grouped := group_by_branch builds in
  builds_to_html_table builds
  = join (String LF EmptyString) (branches_sorted grouped ≫= html_section grouped)
  ∧ (∀ br, br ∈ branches_sorted grouped ↔ ∃ b, b ∈ builds ∧ branch b = br)
  ∧ StronglySorted (λ br1 br2, String.ltb br2 br1 = true) (branches_sorted grouped)
  ∧ (∀ br,
       html_table (builds_in_branch_sorted grouped br)
       = "<table border='1' cellpadding='4' cellspacing='0' style='border-collapse:collapse'>"
         +:+ join EmptyString
               (html_header_row :: (html_row <$> builds_in_branch_sorted grouped br))
         +:+ "</table>"
       ∧ builds_in_branch_sorted grouped br ≡ₚ filter (λ b, branch b = br) builds
       ∧ StronglySorted
           (λ b1 b2, String.leb (lower (name b1)) (lower (name b2)) = true)
           (builds_in_branch_sorted grouped br))
  ∧ (∀ (n1 u1 c1 n2 u2 c2 : string) (s1 s2 : option string),
       branches_sorted
         (group_by_branch [mkBuild n1 u1 c1 "main" s1; mkBuild n2 u2 c2 "dev" s2])
       = ["main"; "dev"]
       ∧ branches_sorted
           (group_by_branch [mkBuild n2 u2 c2 "dev" s2; mkBuild n1 u1 c1 "main" s1])
         = ["main"; "dev"])
  ∧ (lowers_ascii lower →
     ∀ (br u1 c1 u2 c2 : string) (s1 s2 : option string),
       builds_in_branch_sorted
         (group_by_branch [mkBuild "b" u1 c1 br s1; mkBuild "A" u2 c2 br s2]) br
       = [mkBuild "A" u2 c2 br s2; mkBuild "b" u1 c1 br s1]).
Proof.
  intros grouped. subst grouped.
  destruct (group_by_branch_keys builds) as [Hnodup Hkeys].
  split_and!.
  - unfold builds_to_html_table. by rewrite html_parts_foldl.
  - intros br. rewrite <-Hkeys. unfold branches_sorted, sorted_reverse.
    by rewrite sorted_Permutation.
  - by apply sorted_reverse_descending.
  - intros br. split_and!.
    + apply html_table_rows.
    + unfold builds_in_branch_sorted, sorted_key.
      by rewrite sorted_Permutation, group_by_branch_get.
    + apply (sorted_key_ascending (λ b, lower (name b))).
  - intros. split; reflexivity.
  - intros Hlaw *. unfold builds_in_branch_sorted.
    rewrite group_by_branch_get, !filter_cons, filter_nil.
    rewrite !decide_True by done.
    unfold sorted_key, sorted. simpl.
    rewrite (Hlaw "A"), (Hlaw "b") by done. reflexivity.
Qed.

(** C10. On the empty list of rows the CSV text is the header line alone
    and the HTML text is empty. *)
Theorem renderings_of_no_rows :
  builds_to_csv [] = "Branch,Build,Commit,Status,URL" +:+ String CR (String LF EmptyString)
  ∧ CsvReader.read (builds_to_csv [])
    = [["Branch"; "Build"; "Commit"; "Status"; "URL"]]
  ∧ builds_to_html_table [] = EmptyString.
Proof. split_and!; reflexivity. Qed.

(** * Further properties of the code *)

(** ** The join *)

Lemma omap_ext_elem {A B} (f g : A → option B) (l : list A) :
  (∀ x, x ∈ l → f x = g x) → omap f l = omap g l.
Proof.
  intros Hfg. induction l as [|x l IH]; [done|]. csimpl.
  rewrite (Hfg x) by by left.
  rewrite IH; [done|]. intros y Hy. apply Hfg. by right.
Qed.

(** The join of a roster made of two parts is the join of the first part
    followed by the join of the second: each builder is handled on its own,
    against the same index. *)
Theorem join_roster_app (builders1 builders2 : list Builder)
    (builds : list BuildRecord) (branch revision buildbot_url : string) :
  join_builders_with_change (builders1 ++ builders2) builds branch revision
    buildbot_url
  = join_builders_with_change builders1 builds branch revision buildbot_url
    ++ join_builders_with_change builders2 builds branch revision buildbot_url.
Proof. rewrite !join_omap. apply omap_app. Qed.

(** The build records whose id belongs to no builder of the roster can be
    removed from the input without changing the rows. *)
Theorem join_ignores_unmatched_builds (builders : list Builder)
    (builds : list BuildRecord) (branch revision buildbot_url : string) :
  join_builders_with_change builders
    (filter (λ b, Exists (λ builder, matches builder b) builders) builds)
    branch revision buildbot_url
  = join_builders_with_change builders builds branch revision buildbot_url.
Proof.
  rewrite !join_omap. apply omap_ext_elem. intros builder Hin.
  unfold row_of, last_build_for. f_equal. f_equal.
  rewrite list_filter_filter. apply list_filter_iff. intros b.
  split; [by intros [? _]|]. intros Hid. split; [done|].
  apply Exists_exists. by exists builder.
Qed.

(** Every row carries the branch and the revision given to the join, the
    name of a builder of the roster, and the state string of a build record
    of the input with that builder's id. *)
Theorem join_rows_fields (builders : list Builder) (builds : list BuildRecord)
    (branch0 revision buildbot_url : string) :
  Forall (λ row,
            branch row = branch0 ∧ commit row = revision
            ∧ ∃ builder build,
                builder ∈ builders ∧ build ∈ builds ∧ matches builder build
                ∧ name row = builder_name builder
                ∧ status row = build_state_string build)
         (join_builders_with_change builders builds branch0 revision buildbot_url).
Proof.
  rewrite join_omap. apply Forall_forall. intros row Hrow.
  apply list_elem_of_omap in Hrow as (builder & Hin & Hrow).
  unfold row_of in Hrow.
  destruct (last_build_for _ builds) as [build|] eqn:Hlast; [|done].
  apply last_build_for_Some in Hlast as [Hb Hid]. simplify_eq/=.
  split_and!; [done..|]. by exists builder, build.
Qed.

Lemma filter_key_NoDup_length {A} (f : A → Z) (k : Z) (l : list A) :
  NoDup (f <$> l) → length (filter (λ x, f x = k) l) ≤ 1.
Proof.
  induction l as [|x l IH]; [simpl; lia|].
  rewrite fmap_cons, NoDup_cons. intros [Hx Hnodup].
  rewrite filter_cons. case_decide as Hk; [|by apply IH].
  assert (filter (λ x, f x = k) l = []) as ->; [|simpl; lia].
  destruct (filter (λ x, f x = k) l) as [|y l'] eqn:Hf; [done|].
  assert (y ∈ filter (λ x, f x = k) l) as Hy by (rewrite Hf; by left).
  apply list_elem_of_filter in Hy as [Hyk Hy]. exfalso. apply Hx.
  rewrite Hk, <-Hyk. by apply list_elem_of_fmap_2.
Qed.

(** When no two build records share an id, the order in which the build
    records arrive does not matter. *)
Theorem join_builds_order_irrelevant (builders : list Builder)
    (builds1 builds2 : list BuildRecord) (branch revision buildbot_url : string) :
  NoDup (build_builderid <$> builds1) →
  builds1 ≡ₚ builds2 →
  join_builders_with_change builders builds1 branch revision buildbot_url
  = join_builders_with_change builders builds2 branch revision buildbot_url.
Proof.
  intros Hnodup Hperm. rewrite !join_omap. apply omap_ext_elem.
  intros builder _. unfold row_of, last_build_for. f_equal. f_equal.
  pose proof (filter_key_NoDup_length build_builderid
                (builder_builderid builder) builds1 Hnodup) as Hlen.
  assert (filter (λ b, build_builderid b = builder_builderid builder) builds1
          ≡ₚ filter (λ b, build_builderid b = builder_builderid builder) builds2)
    as Hfilter by by rewrite Hperm.
  destruct (filter _ builds1) as [|b1 [|b1' l1]]; simpl in Hlen; [| |lia].
  - by apply Permutation_nil in Hfilter.
  - by apply Permutation_singleton_l in Hfilter.
Qed.

Lemma join_builds_order_irrelevant_witness :
  join_builders_with_change [mkBuilder 1 "B1"; mkBuilder 2 "B2"]
    [mkBuildRecord 1 (Some 42%Z) (Some "failed");
     mkBuildRecord 2 (Some 43%Z) (Some "building")] "main" "abc" "http://bb/"
  = join_builders_with_change [mkBuilder 1 "B1"; mkBuilder 2 "B2"]
      [mkBuildRecord 2 (Some 43%Z) (Some "building");
       mkBuildRecord 1 (Some 42%Z) (Some "failed")] "main" "abc" "http://bb/".
Proof.
  apply join_builds_order_irrelevant.
  - simpl. apply NoDup_cons. split; [|apply NoDup_singleton].
    by intros ?%list_elem_of_singleton.
  - apply Permutation_swap.
Defined.

(** ** The detail URL *)

Lemma pretty_N_char_decimal (x : N) : decimal_char (pretty_N_char x) = true.
Proof. unfold pretty_N_char. by repeat case_match. Qed.

Lemma pretty_N_go_decimal (x : N) (s : string) :
  str_all decimal_char s = true →
  str_all decimal_char (pretty_N_go x s) = true.
Proof.
  revert s. induction (N.lt_wf_0 x) as [x _ IH]; intros s Hs.
  assert (x = 0 ∨ 0 < x)%N as [->|Hpos] by lia.
  - by rewrite pretty_N_go_0.
  - rewrite pretty_N_go_step by done. apply IH; [by apply N.div_lt|].
    simpl. by rewrite pretty_N_char_decimal.
Qed.

Lemma pretty_N_decimal (x : N) : str_all decimal_char (pretty x) = true.
Proof.
  unfold pretty, pretty_N. case_decide; [done|]. by apply pretty_N_go_decimal.
Qed.

(** [str(z)] is made of digits and at most a leading minus sign. *)
Lemma str_int_decimal (z : Z) : str_all decimal_char (str_int z) = true.
Proof.
  unfold str_int, pretty, pretty_Z. destruct z as [|p|p]; [done|..].
  - apply pretty_N_decimal.
  - rewrite str_app_cons. simpl. apply pretty_N_decimal.
Qed.

(** Two texts that agree, each cut at the first occurrence of a character,
    have the same parts. *)
Lemma str_app_split (P : ascii → bool) (c : ascii) (s1 s2 r1 r2 : string) :
  P c = false → str_all P s1 = true → str_all P s2 = true →
  s1 +:+ String c r1 = s2 +:+ String c r2 → s1 = s2 ∧ r1 = r2.
Proof.
  intros Hc. revert s2. induction s1 as [|a s1 IH]; intros [|b s2] Hs1 Hs2 Heq.
  - change (String c r1 = String c r2) in Heq. by simplify_eq.
  - change (String c r1 = String b (s2 +:+ String c r2)) in Heq.
    apply andb_true_iff in Hs2 as [Hb _]. simplify_eq. congruence.
  - change (String a (s1 +:+ String c r1) = String c r2) in Heq.
    apply andb_true_iff in Hs1 as [Ha _]. simplify_eq. congruence.
  - rewrite !str_app_cons in Heq. simplify_eq/=.
    apply andb_true_iff in Hs1 as [_ Hs1]. apply andb_true_iff in Hs2 as [_ Hs2].
    destruct (IH s2 Hs1 Hs2) as [-> ->]; done.
Qed.

Lemma str_opt_int_inj (v1 v2 : option Z) :
  str_opt_int v1 = str_opt_int v2 → v1 = v2.
Proof.
  assert (∀ z, str_int z ≠ "None") as Hne.
  { intros z Hz. pose proof (str_int_decimal z) as Hdec. by rewrite Hz in Hdec. }
  destruct v1 as [z1|], v2 as [z2|]; simpl; intros Heq.
  - f_equal. by apply (inj pretty).
  - by apply Hne in Heq.
  - symmetry in Heq. by apply Hne in Heq.
  - done.
Qed.

(** Under one base URL, the detail URL of a row tells the builder id and
    the build number it was made from: two rows with the same URL come from
    the same builder id and the same build number (or both from a record
    without number). *)
Theorem detail_url_identifies_build (builder1 builder2 : Builder)
    (build1 build2 : BuildRecord)
    (branch1 revision1 branch2 revision2 buildbot_url : string) :
  url (make_build builder1 build1 branch1 revision1 buildbot_url)
  = url (make_build builder2 build2 branch2 revision2 buildbot_url) →
  builder_builderid builder1 = builder_builderid builder2
  ∧ build_number build1 = build_number build2.
Proof.
  simpl. intros Heq.
  apply (inj (String.app buildbot_url)) in Heq.
  apply (inj (String.app "#/builders/")) in Heq.
  apply (str_app_split decimal_char "/"%char) in Heq as [Hid Hnumber];
    [|done|apply str_int_decimal..].
  split.
  - by apply (inj pretty).
  - apply (inj (String.app "builds/")) in Hnumber. by apply str_opt_int_inj.
Qed.

Lemma detail_url_identifies_build_witness :
  builder_builderid (mkBuilder 7 "B7") = builder_builderid (mkBuilder 7 "other")
  ∧ build_number (mkBuildRecord 7 (Some 42%Z) (Some "failed"))
    = build_number (mkBuildRecord 7 (Some 42%Z) None).
Proof.
  apply (detail_url_identifies_build _ _ _ _ "main" "abc" "dev" "def" "http://bb/").
  reflexivity.
Defined.

(** ** The failed builds *)

Lemma status_all_or_none (BUILDS : list Build) :
  Forall (λ b, is_Some (status b)) BUILDS
  ∨ Exists (λ b, status b = None) BUILDS.
Proof.
  induction BUILDS as [|b BUILDS [IH|IH]].
  - left. constructor.
  - destruct (status b) as [s|] eqn:Hs.
    + left. constructor; [by rewrite Hs|done].
    + right. by left.
  - right. by right.
Qed.

(** The selection of the failed builds raises exactly when some row has no
    status, and the exception is then the [AttributeError] of [None.lower];
    it returns exactly when every row has a status. *)
Theorem failed_builds_raises_iff (BUILDS : list Build) :
  (failed_builds BUILDS = Raise (AttributeError "NoneType" "lower")
   ↔ Exists (λ b, status b = None) BUILDS)
  ∧ ((∃ failed, failed_builds BUILDS = Ok failed)
     ↔ Forall (λ b, is_Some (status b)) BUILDS)
  ∧ (∀ e, failed_builds BUILDS = Raise e
          → e = AttributeError "NoneType" "lower").
Proof.
  destruct (status_all_or_none BUILDS) as [Hall|Hex].
  - pose proof (failed_builds_Ok BUILDS Hall) as Hok. rewrite Hok.
    split_and!.
    + split; [done|]. intros Hex. exfalso.
      apply Exists_exists in Hex as (b & Hin & Hnone).
      rewrite Forall_forall in Hall. destruct (Hall b Hin) as [s Hs]. congruence.
    + split; [done|]. intros _. by eexists.
    + done.
  - pose proof (failed_builds_None_raises BUILDS Hex) as Hraise. rewrite Hraise.
    split_and!.
    + done.
    + split; [by intros [? ?]|]. intros Hall. exfalso.
      apply Exists_exists in Hex as (b & Hin & Hnone).
      rewrite Forall_forall in Hall. destruct (Hall b Hin) as [s Hs]. congruence.
    + by intros e [= <-].
Qed.

(** Selecting the failed builds of a list already selected changes
    nothing. *)
Theorem failed_builds_idempotent (BUILDS failed : list Build) :
  failed_builds BUILDS = Ok failed → failed_builds failed = Ok failed.
Proof.
  intros Hrun. destruct (status_all_or_none BUILDS) as [Hall|Hex].
  - rewrite failed_builds_Ok in Hrun by done. simplify_eq.
    rewrite failed_builds_Ok.
    + f_equal. rewrite list_filter_filter. apply list_filter_iff. tauto.
    + rewrite Forall_forall in Hall |- *. intros b Hb.
      apply list_elem_of_filter in Hb as [_ Hb]. by apply Hall.
  - by rewrite failed_builds_None_raises in Hrun.
Qed.

(** Selecting over rows gathered from two sources is selecting over each
    and putting the results one after the other; it raises when either part
    does. *)
Theorem failed_builds_app (BUILDS1 BUILDS2 : list Build) :
  failed_builds (BUILDS1 ++ BUILDS2)
  = (failed1 ← failed_builds BUILDS1;
     failed2 ← failed_builds BUILDS2;
     Ok (failed1 ++ failed2)).
Proof.
  destruct (status_all_or_none BUILDS1) as [Hall1|Hex1].
  - rewrite (failed_builds_Ok BUILDS1) by done.
    destruct (status_all_or_none BUILDS2) as [Hall2|Hex2].
    + rewrite (failed_builds_Ok BUILDS2), failed_builds_Ok by
        (done || by apply Forall_app).
      simpl. by rewrite filter_app.
    + rewrite (failed_builds_None_raises BUILDS2) by done.
      rewrite failed_builds_None_raises; [done|].
      apply Exists_app. by right.
  - rewrite (failed_builds_None_raises BUILDS1) by done.
    rewrite failed_builds_None_raises; [done|]. apply Exists_app. by left.
Qed.

(** ** The CSV rendering *)

Lemma count_char_app (c : ascii) (s1 s2 : string) :
  count_char c (s1 +:+ s2) = count_char c s1 + count_char c s2.
Proof.
  induction s1 as [|d s1 IH]; [done|].
  rewrite str_app_cons. simpl. rewrite IH. lia.
Qed.

Lemma count_LF_copy_data (s : string) :
  count_char LF (Csv.copy_data s) = count_char LF s.
Proof.
  induction s as [|d s IH]; [done|]. simpl.
  destruct (Ascii.eqb_spec d Csv.quotechar) as [->|Hd]; simpl; by rewrite IH.
Qed.

(** Quoting adds no line feed to a field. *)
Lemma count_LF_field (v : option string) :
  count_char LF (Csv.field v) = count_char LF (Csv.field_data v).
Proof.
  unfold Csv.field. destruct (Csv.has_special _); [|done].
  unfold Csv.quoted. simpl. rewrite count_char_app, count_LF_copy_data.
  simpl. lia.
Qed.

Lemma count_LF_fields (row : list (option string)) :
  count_char LF (join (String Csv.delimiter EmptyString) (Csv.field <$> row))
  = sum_list (count_char LF ∘ Csv.field_data <$> row).
Proof.
  induction row as [|v row IH]; [done|].
  destruct row as [|v' row].
  - simpl. rewrite count_LF_field. lia.
  - change (join (String Csv.delimiter EmptyString) (Csv.field <$> v :: v' :: row))
      with (Csv.field v +:+ String Csv.delimiter EmptyString
            +:+ join (String Csv.delimiter EmptyString) (Csv.field <$> v' :: row)).
    rewrite !count_char_app, IH, count_LF_field. simpl. lia.
Qed.

Lemma count_LF_csv_row (b : Build) :
  count_char LF (Csv.record (csv_row b)) = S (row_line_feeds b).
Proof.
  change (Csv.record (csv_row b))
    with (join (String Csv.delimiter EmptyString) (Csv.field <$> csv_row b)
          +:+ Csv.lineterminator).
  rewrite count_char_app, count_LF_fields. unfold row_line_feeds. simpl. lia.
Qed.

(** The CSV text has one line feed for the header, one per row, and those
    that the fields themselves hold; when no field holds a line feed, the
    text has one line feed more than there are rows. *)
Theorem builds_to_csv_line_feeds (builds : list Build) :
  count_char LF (builds_to_csv builds)
  = S (length builds) + sum_list (row_line_feeds <$> builds)
  ∧ (Forall (λ b, row_line_feeds b = 0) builds →
     count_char LF (builds_to_csv builds) = S (length builds)).
Proof.
  assert (count_char LF (builds_to_csv builds)
          = S (length builds) + sum_list (row_line_feeds <$> builds)) as Hcount.
  { unfold builds_to_csv. rewrite builds_to_csv_foldl, count_char_app.
    change (count_char LF (Csv.writerow EmptyString csv_header)) with 1.
    assert (count_char LF
              (join EmptyString ((λ b, Csv.record (csv_row b)) <$> builds))
            = length builds + sum_list (row_line_feeds <$> builds)) as ->; [|lia].
    induction builds as [|b builds IH]; [done|].
    rewrite !fmap_cons, join_empty_cons, count_char_app, count_LF_csv_row, IH.
    change (sum_list (row_line_feeds b :: (row_line_feeds <$> builds)))
      with (row_line_feeds b + sum_list (row_line_feeds <$> builds)).
    change (length (b :: builds)) with (S (length builds)). lia. }
  split; [exact Hcount|].
  intros Hnone. rewrite Hcount.
  assert (sum_list (row_line_feeds <$> builds) = 0) as ->; [|lia].
  clear Hcount. induction Hnone as [|b builds Hb _ IH]; [done|].
  rewrite fmap_cons.
  change (sum_list (row_line_feeds b :: (row_line_feeds <$> builds)))
    with (row_line_feeds b + sum_list (row_line_feeds <$> builds)).
  lia.
Qed.

Lemma read_builds_to_csv (builds : list Build) :
  CsvReader.read (builds_to_csv builds)
  = (λ row : list (option string), Csv.field_data <$> row)
      <$> (csv_header :: (csv_row <$> builds)).
Proof.
  unfold builds_to_csv. rewrite builds_to_csv_foldl.
  rewrite <-read_records.
  - rewrite fmap_cons, join_empty_cons, <-list_fmap_compose. done.
  - constructor; [done|]. apply Forall_fmap, Forall_forall. by intros b _.
Qed.

(** The CSV text determines the rows up to the difference between a missing
    and an empty status: two lists of rows with the same text have the same
    length and agree, row by row, on every column. *)
Theorem builds_to_csv_determines_rows (builds1 builds2 : list Build) :
  builds_to_csv builds1 = builds_to_csv builds2 →
  Forall2 same_csv_fields builds1 builds2.
Proof.
  intros Heq. apply (f_equal CsvReader.read) in Heq.
  rewrite !read_builds_to_csv, !fmap_cons in Heq.
  apply (inj (cons _)) in Heq. rewrite <-!list_fmap_compose in Heq.
  revert builds2 Heq.
  induction builds1 as [|b1 builds1 IH]; intros [|b2 builds2] Heq;
    [constructor|done|done|].
  rewrite !fmap_cons in Heq. injection Heq as Hbranch Hname Hcommit Hstatus Hurl Htl.
  constructor; [done|by apply IH].
Qed.

Lemma builds_to_csv_determines_rows_witness :
  Forall2 same_csv_fields
    [mkBuild "B1" "http://bb/#/builders/1/builds/42" "abc" "main" None]
    [mkBuild "B1" "http://bb/#/builders/1/builds/42" "abc" "main" (Some EmptyString)].
Proof. apply builds_to_csv_determines_rows. reflexivity. Defined.

(** ** The HTML rendering *)

Lemma bind_ext_elem {A B} (f g : A → list B) (l : list A) :
  (∀ x, x ∈ l → f x = g x) → l ≫= f = l ≫= g.
Proof.
  intros Hfg. induction l as [|x l IH]; [done|].
  rewrite !bind_cons, (Hfg x) by by left.
  rewrite IH; [done|]. intros y Hy. apply Hfg. by right.
Qed.

Lemma bind_Permutation_pointwise {A B} (f g : A → list B) (l : list A) :
  (∀ x, f x ≡ₚ g x) → l ≫= f ≡ₚ l ≫= g.
Proof.
  intros Hfg. induction l as [|x l IH]; [done|].
  by rewrite !bind_cons, Hfg, IH.
Qed.

Lemma bind_filter_key_cons {A} (f : A → string) (ks : list string)
    (x : A) (l : list A) :
  NoDup ks → f x ∈ ks →
  ks ≫= (λ k, filter (λ y, f y = k) (x :: l))
  ≡ₚ x :: (ks ≫= (λ k, filter (λ y, f y = k) l)).
Proof.
  induction 1 as [|k ks Hk Hnodup IH]; intros Hx.
  { by apply not_elem_of_nil in Hx. }
  rewrite !bind_cons, filter_cons. case_decide as Hfx.
  - subst k.
    rewrite (bind_ext_elem (λ k, filter (λ y, f y = k) (x :: l))
               (λ k, filter (λ y, f y = k) l) ks); [done|].
    intros k' Hk'. rewrite filter_cons, decide_False; [done|].
    intros Heq. apply Hk. by rewrite Heq.
  - apply elem_of_cons in Hx as [?|Hx]; [done|].
    rewrite (IH Hx). symmetry. apply Permutation_middle.
Qed.

(** Cutting a list into the classes of a key, one class per key of a
    duplicate-free list that has every key, loses and repeats nothing. *)
Lemma bind_filter_key {A} (f : A → string) (ks : list string) (l : list A) :
  NoDup ks → (∀ x, x ∈ l → f x ∈ ks) →
  ks ≫= (λ k, filter (λ x, f x = k) l) ≡ₚ l.
Proof.
  intros Hnodup. induction l as [|x l IH]; intros Hkeys.
  - clear. induction ks as [|k ks IH]; [done|]. by rewrite bind_cons.
  - rewrite bind_filter_key_cons by (done || apply Hkeys; by left).
    apply Permutation_skip, IH. intros y Hy. apply Hkeys. by right.
Qed.

Lemma builds_in_branch_sorted_Permutation (builds : list Build) (br : string) :
  builds_in_branch_sorted (group_by_branch builds) br
  ≡ₚ filter (λ b, branch b = br) builds.
Proof.
  unfold builds_in_branch_sorted, sorted_key.
  by rewrite sorted_Permutation, group_by_branch_get.
Qed.

Lemma branches_sorted_Permutation (builds : list Build) :
  branches_sorted (group_by_branch builds)
  ≡ₚ grouped_keys (group_by_branch builds).
Proof. unfold branches_sorted, sorted_reverse. apply sorted_Permutation. Qed.

Lemma bind_fmap {A B C} (f : A → B) (g : B → list C) (l : list A) :
  (f <$> l) ≫= g = l ≫= (λ x, g (f x)).
Proof.
  induction l as [|x l IH]; [done|]. by rewrite fmap_cons, !bind_cons, IH.
Qed.

(** Every row is rendered exactly once: the HTML text is the text of one
    section per branch, each branch once, whose tables hold one row per
    build listed; and the builds listed by all the sections together are the
    rows given, in another order. *)
Theorem html_rows_each_once (builds : list Build) :
  builds_to_html_table builds = html_render_sections (html_sections builds)
  ∧ NoDup (fst <$> html_sections builds)
  ∧ (html_sections builds ≫= snd) ≡ₚ builds
  ∧ length (html_sections builds ≫= snd) = length builds.
Proof.
  destruct (group_by_branch_keys builds) as [Hnodup Hkeys].
  assert ((html_sections builds ≫= snd) ≡ₚ builds) as Hperm.
  { unfold html_sections. rewrite bind_fmap. simpl.
    rewrite branches_sorted_Permutation.
    rewrite (bind_Permutation_pointwise _ (λ br, filter (λ b, branch b = br) builds))
      by apply builds_in_branch_sorted_Permutation.
    apply bind_filter_key; [done|]. intros b Hb. apply Hkeys. by exists b. }
  split_and!.
  - unfold builds_to_html_table, html_render_sections, html_sections.
    rewrite html_parts_foldl, app_nil_l, bind_fmap. f_equal.
    apply bind_ext_elem. intros br _. unfold html_section. simpl.
    by rewrite html_table_rows.
  - assert (fst <$> html_sections builds
            = branches_sorted (group_by_branch builds)) as ->.
    { unfold html_sections. rewrite <-list_fmap_compose.
      induction (branches_sorted (group_by_branch builds)) as [|br brs IH];
        [done|]. rewrite fmap_cons. simpl. by rewrite IH. }
    by rewrite branches_sorted_Permutation.
  - done.
  - by rewrite Hperm.
Qed.

(** The sort inside a branch is stable: the rows of a branch whose names
    are the same up to letter case are rendered in their input order. *)
Theorem html_rows_stable (builds : list Build) (br key : string) :
  filter (λ b, lower (name b) = key)
    (builds_in_branch_sorted (group_by_branch builds) br)
  = filter (λ b, lower (name b) = key ∧ branch b = br) builds.
Proof.
  unfold builds_in_branch_sorted, sorted_key.
  rewrite sorted_stable, group_by_branch_get, list_filter_filter; [done|].
  intros b1 b2 -> ->. unfold String.ltb.
  assert (String.compare key key = Eq) as ->; [|done].
  destruct (String.compare key key) eqn:Hc; [done|..];
    pose proof (String.compare_antisym key key) as Hanti;
    rewrite Hc in Hanti; done.
Qed.

(** The HTML text is empty exactly when there is no row; otherwise it
    begins with the heading of a branch. *)
Theorem html_empty_iff_no_rows (builds : list Build) :
  (builds_to_html_table builds = EmptyString ↔ builds = [])
  ∧ (builds ≠ [] →
     ∃ br rest, builds_to_html_table builds = "<h3>Branch: " +:+ br +:+ rest).
Proof.
  assert (builds ≠ [] →
          ∃ br rest, builds_to_html_table builds = "<h3>Branch: " +:+ br +:+ rest)
    as Hhead.
  { intros Hne. unfold builds_to_html_table. rewrite html_parts_foldl.
    destruct (branches_sorted (group_by_branch builds)) as [|br brs] eqn:Hbrs.
    - exfalso. destruct builds as [|b builds]; [done|].
      destruct (group_by_branch_keys (b :: builds)) as [_ Hkeys].
      assert (branch b ∈ branches_sorted (group_by_branch (b :: builds))) as Hin.
      { rewrite branches_sorted_Permutation. apply Hkeys. exists b.
        split; [by left|done]. }
      rewrite Hbrs in Hin. by apply not_elem_of_nil in Hin.
    - exists br. rewrite app_nil_l, bind_cons. unfold html_section at 1.
      eexists. cbn [app join]. rewrite !str_app_assoc. reflexivity. }
  split; [|exact Hhead]. split.
  - intros Hempty. destruct builds as [|b builds]; [done|].
    destruct Hhead as (br & rest & Hhtml); [done|].
    rewrite Hhtml in Hempty. done.
  - by intros ->.
Qed.

Lemma str_contains_refl (s : string) : str_contains s s.
Proof. exists EmptyString, EmptyString. by rewrite str_app_nil_r. Qed.

Lemma str_contains_app (sub s before after : string) :
  str_contains sub s → str_contains sub (before +:+ s +:+ after).
Proof.
  intros (b & a & ->). exists (before +:+ b), (a +:+ after).
  by rewrite !str_app_assoc.
Qed.

Lemma str_contains_trans (s1 s2 s3 : string) :
  str_contains s1 s2 → str_contains s2 s3 → str_contains s1 s3.
Proof. intros H12 (b & a & ->). by apply str_contains_app. Qed.

(** A part of [sep.join(parts)] occurs in it. *)
Lemma join_contains (sep p : string) (parts : list string) :
  p ∈ parts → str_contains p (join sep parts).
Proof.
  induction parts as [|q parts IH]; intros Hin.
  { by apply not_elem_of_nil in Hin. }
  destruct parts as [|q' parts].
  - apply list_elem_of_singleton in Hin as ->. apply str_contains_refl.
  - change (join sep (q :: q' :: parts))
      with (q +:+ sep +:+ join sep (q' :: parts)).
    apply elem_of_cons in Hin as [->|Hin].
    + exists EmptyString, (sep +:+ join sep (q' :: parts)). done.
    + destruct (IH Hin) as (b & a & ->).
      exists (q +:+ sep +:+ b), a. by rewrite !str_app_assoc.
Qed.

(** No row is lost in the text: for every row given, the HTML text holds
    the heading of its branch and the table row of the build, with the
    build name as a link to its detail URL. *)
Theorem html_contains_every_row (builds : list Build) (b : Build) :
  b ∈ builds →
  str_contains ("<h3>Branch: " +:+ branch b +:+ "</h3>")
    (builds_to_html_table builds)
  ∧ str_contains (html_row b) (builds_to_html_table builds)
  ∧ str_contains
      ("<a href=" +:+ String DQUOTE (url b) +:+ String DQUOTE ">"
       +:+ name b +:+ "</a>")
      (builds_to_html_table builds).
Proof.
  intros Hb. unfold builds_to_html_table. rewrite html_parts_foldl, app_nil_l.
  destruct (group_by_branch_keys builds) as [_ Hkeys].
  assert (branch b ∈ branches_sorted (group_by_branch builds)) as Hbr.
  { rewrite branches_sorted_Permutation. apply Hkeys. by exists b. }
  assert (∀ part, part ∈ html_section (group_by_branch builds) (branch b) →
            str_contains part
              (join (String LF EmptyString)
                 (branches_sorted (group_by_branch builds)
                  ≫= html_section (group_by_branch builds)))) as Hpart.
  { intros part Hpart. apply join_contains, list_elem_of_bind.
    by exists (branch b). }
  assert (str_contains (html_row b)
            (html_table (builds_in_branch_sorted (group_by_branch builds)
                           (branch b)))) as Hrow.
  { rewrite html_table_rows. apply str_contains_app, join_contains.
    right. apply list_elem_of_fmap_2.
    rewrite builds_in_branch_sorted_Permutation. by apply list_elem_of_filter. }
  assert (str_contains (html_row b)
            (join (String LF EmptyString)
               (branches_sorted (group_by_branch builds)
                ≫= html_section (group_by_branch builds)))) as Hrow'.
  { eapply str_contains_trans; [exact Hrow|]. apply Hpart.
    unfold html_section. set_unfold. tauto. }
  split_and!.
  - apply Hpart. unfold html_section. by left.
  - exact Hrow'.
  - eapply str_contains_trans; [|exact Hrow']. unfold html_row.
    exists "<tr><td>",
      ("</td>" +:+ "<td>" +:+ commit b +:+ "</td>"
       +:+ "<td>" +:+ str_opt_str (status b) +:+ "</td>" +:+ "</tr>").
    by rewrite !str_app_assoc.
Qed.

(** When, inside each branch, no two different rows have the same name up
    to letter case, the HTML text does not depend on the order in which the
    rows are given. *)
Theorem html_order_independent (builds1 builds2 : list Build) :
  builds1 ≡ₚ builds2 →
  (∀ b1 b2, b1 ∈ builds1 → b2 ∈ builds1 → branch b1 = branch b2 →
            lower (name b1) = lower (name b2) → b1 = b2) →
  builds_to_html_table builds1 = builds_to_html_table builds2.
Proof.
  intros Hperm Hdistinct.
  destruct (group_by_branch_keys builds1) as [Hnodup1 Hkeys1].
  destruct (group_by_branch_keys builds2) as [Hnodup2 Hkeys2].
  assert (branches_sorted (group_by_branch builds1)
          = branches_sorted (group_by_branch builds2)) as Hbranches.
  { apply (StronglySorted_unique_strong (λ x y, String.ltb y x = true)).
    - intros x y _ _ Hyx Hxy. apply ltb_asym in Hxy. congruence.
    - by apply sorted_reverse_descending.
    - by apply sorted_reverse_descending.
    - rewrite !branches_sorted_Permutation.
      apply NoDup_Permutation; [done..|]. intros br.
      rewrite Hkeys1, Hkeys2. by setoid_rewrite Hperm. }
  assert (∀ br, builds_in_branch_sorted (group_by_branch builds1) br
                = builds_in_branch_sorted (group_by_branch builds2) br) as Hrows.
  { intros br.
    apply (StronglySorted_unique_strong
             (λ b1 b2, String.leb (lower (name b1)) (lower (name b2)) = true)).
    - intros b1 b2 Hb1 Hb2 H12 H21.
      rewrite builds_in_branch_sorted_Permutation in Hb1, Hb2.
      apply list_elem_of_filter in Hb1 as [Hbr1 Hb1].
      apply list_elem_of_filter in Hb2 as [Hbr2 Hb2].
      rewrite <-Hperm in Hb2.
      apply Hdistinct; [done|done|congruence|by apply String.leb_antisym].
    - apply (sorted_key_ascending (λ b, lower (name b))).
    - apply (sorted_key_ascending (λ b, lower (name b))).
    - rewrite !builds_in_branch_sorted_Permutation. by rewrite Hperm. }
  unfold builds_to_html_table. rewrite !html_parts_foldl, Hbranches.
  f_equal. f_equal. apply bind_ext_elem. intros br _.
  unfold html_section. by rewrite Hrows.
Qed.

(** ** The top level *)

Lemma collect_step_acc (server : Server) (builders : list Builder)
    (buildbot_url : string) (BUILDS : list Build) (branch : string) :
  collect_step server builders buildbot_url BUILDS branch
  = BUILDS ++ collect_step server builders buildbot_url [] branch.
Proof.
  unfold collect_step. destruct (get_latest_builds_on_branch server branch).
  - by rewrite app_nil_r.
  - done.
Qed.

Lemma collect_foldl (server : Server) (builders : list Builder)
    (buildbot_url : string) (BUILDS : list Build) (branches : list string) :
  foldl (collect_step server builders buildbot_url) BUILDS branches
  = BUILDS ++ (branches ≫= collect_step server builders buildbot_url []).
Proof.
  revert BUILDS. induction branches as [|br branches IH]; intros BUILDS.
  - simpl. by rewrite app_nil_r.
  - cbn [foldl].
    rewrite IH, bind_cons, (collect_step_acc _ _ _ BUILDS), <-app_assoc. done.
Qed.

Lemma all_builds_bind (env : Env) (config : Config) (server : Server) :
  all_builds env config server
  = config_branches config ≫= branch_builds env config server.
Proof. unfold all_builds. by rewrite collect_foldl. Qed.

(** The rows are gathered branch by branch, in the order of the
    configuration; a branch for which the server has no change adds
    nothing; and of the changes the server gives for a branch only the
    first one is used. *)
Theorem all_builds_per_branch (env : Env) (server : Server)
    (builder_filter : option (list string)) :
  (∀ branches1 branches2,
     all_builds env (mkConfig (branches1 ++ branches2) builder_filter) server
     = all_builds env (mkConfig branches1 builder_filter) server
       ++ all_builds env (mkConfig branches2 builder_filter) server)
  ∧ (∀ branches1 br branches2,
       get_latest_builds_on_branch server br = [] →
       all_builds env (mkConfig (branches1 ++ br :: branches2) builder_filter) server
       = all_builds env (mkConfig (branches1 ++ branches2) builder_filter) server)
  ∧ (∀ branches server',
       get_builders_details server' = get_builders_details server →
       (∀ br, br ∈ branches →
          head (get_latest_builds_on_branch server' br)
          = head (get_latest_builds_on_branch server br)) →
       all_builds env (mkConfig branches builder_filter) server'
       = all_builds env (mkConfig branches builder_filter) server).
Proof.
  split_and!.
  - intros. rewrite !all_builds_bind. simpl. apply bind_app.
  - intros branches1 br branches2 Hnone. rewrite !all_builds_bind. simpl.
    rewrite !bind_app, bind_cons. f_equal.
    unfold branch_builds, collect_step. simpl. by rewrite Hnone.
  - intros branches server' Hbuilders Hhead. rewrite !all_builds_bind. simpl.
    apply bind_ext_elem. intros br Hbr.
    unfold branch_builds, collect_step. simpl. rewrite Hbuilders.
    specialize (Hhead br Hbr).
    destruct (get_latest_builds_on_branch server' br),
             (get_latest_builds_on_branch server br); by simplify_eq/=.
Qed.

Lemma filter_not_excluded_nil (BUILDS : list Build) :
  filter (λ b, ¬ excluded b) BUILDS = [] ↔ Forall excluded BUILDS.
Proof.
  induction BUILDS as [|b BUILDS IH]; [by split; [constructor|]|].
  rewrite filter_cons, Forall_cons. destruct (decide (excluded b)) as [Hb|Hb].
  - rewrite decide_False by tauto. rewrite IH. tauto.
  - rewrite decide_True by done. split; [done|]. tauto.
Qed.

Lemma excluded_has_status (b : Build) : excluded b → is_Some (status b).
Proof. unfold excluded. destruct (status b); [eauto|done]. Qed.

Lemma report_success_iff (env : Env) (failed : list Build) :
  report env failed = [success_signal] ↔ failed = [].
Proof. destruct failed; by split. Qed.

Lemma report_mail_iff (env : Env) (failed : list Build) :
  (∃ msg, report env failed
          = [Sendmail (env_smtp_relay env) (env_smtp_port env) (env_sender env)
               (env_recipient env) msg])
  ↔ failed ≠ [].
Proof.
  destruct failed as [|b failed]; split; try done.
  - by intros [msg ?].
  - intros _. by eexists.
Qed.

(** A run ends in exactly one of three ways, decided by the rows gathered:
    it raises the [AttributeError] of [None.lower], before any mail, exactly
    when some row has no status; it prints the success message exactly when
    every row has one of the four healthy statuses; it sends the mail exactly
    when every row has a status and some row is not healthy. *)
Theorem main_outcomes (env : Env) (config : Config) (server : Server) :
  let BUILDS := all_builds env config server in
  (main env config server = Raise (AttributeError "NoneType" "lower")
   ↔ Exists (λ b, status b = None) BUILDS)
  ∧ (main env config server = Ok [success_signal] ↔ Forall excluded BUILDS)
  ∧ ((∃ msg, main env config server
             = Ok [Sendmail (env_smtp_relay env) (env_smtp_port env)
                     (env_sender env) (env_recipient env) msg])
     ↔ Forall (λ b, is_Some (status b)) BUILDS
       ∧ Exists (λ b, ¬ excluded b) BUILDS).
Proof.
  intros BUILDS. unfold main. fold BUILDS.
  destruct (status_all_or_none BUILDS) as [Hall|Hex].
  - rewrite failed_builds_Ok by done. simpl.
    assert (¬ Exists (λ b, status b = None) BUILDS) as Hnone.
    { intros (b & Hin & Hb)%Exists_exists. rewrite Forall_forall in Hall.
      destruct (Hall b Hin) as [s Hs]. congruence. }
    split_and!.
    + split; [done|]. intros ?. by destruct Hnone.
    + rewrite <-filter_not_excluded_nil, <-(report_success_iff env).
      split; [by intros [= ->]|by intros ->].
    + split.
      * intros [msg [= Hmsg]]. split; [done|].
        apply not_Forall_Exists; [apply _|].
        rewrite <-filter_not_excluded_nil, <-(report_success_iff env), Hmsg. done.
      * intros [_ Hsome].
        destruct (proj2 (report_mail_iff env (filter (λ b, ¬ excluded b) BUILDS)))
          as [msg Hmsg].
        { rewrite filter_not_excluded_nil. intros Hexcl.
          apply Exists_exists in Hsome as (b & Hin & Hb).
          rewrite Forall_forall in Hexcl. by apply Hb, Hexcl. }
        exists msg. by rewrite Hmsg.
  - rewrite failed_builds_None_raises by done. simpl.
    assert (¬ Forall (λ b, is_Some (status b)) BUILDS) as Hsome.
    { intros Hall. apply Exists_exists in Hex as (b & Hin & Hb).
      rewrite Forall_forall in Hall. destruct (Hall b Hin) as [s Hs]. congruence. }
    split_and!.
    + done.
    + split; [done|]. intros Hexcl. destruct Hsome.
      eapply Forall_impl; [exact Hexcl|]. apply excluded_has_status.
    + split; [by intros [? ?]|]. intros [? _]. by destruct Hsome.
Qed.

(** What a mail reports: whenever a run sends a mail, the rows it reports
    are the rows gathered whose status is not healthy, and there is at least
    one; the body is their HTML rendering, and the attachment, read back as
    CSV, is the header followed by one record per such row, in the order
    they were gathered. *)
Theorem mail_reports_failed_rows (env : Env) (config : Config) (server : Server)
    (smtp_relay : string) (smtp_port : Z) (sender recipient : string)
    (msg : Mail) :
  main env config server = Ok [Sendmail smtp_relay smtp_port sender recipient msg] →
  let failed := filter (λ b, ¬ excluded b) (all_builds env config server) in
  failed ≠ []
  ∧ mail_html_body msg = builds_to_html_table failed
  ∧ mail_attachment_filename msg = "builds_report.csv"
  ∧ CsvReader.read (mail_attachment_payload msg)
    = ["Branch"; "Build"; "Commit"; "Status"; "URL"]
      :: ((λ b, [branch b; name b; commit b; Csv.field_data (status b); url b])
            <$> failed)
  ∧ mail_from msg = env_sender env ∧ mail_to msg = env_recipient env
  ∧ mail_subject msg = env_subject env.
Proof.
  intros Hmain failed. subst failed. unfold main in Hmain.
  destruct (status_all_or_none (all_builds env config server)) as [Hall|Hex].
  - rewrite failed_builds_Ok in Hmain by done. simpl in Hmain.
    destruct (filter _ (all_builds env config server)) as [|b failed] eqn:Hf.
    { done. }
    injection Hmain as <- <- <- <- <-. simpl.
    split_and!; try done.
    rewrite read_builds_to_csv, fmap_cons, <-list_fmap_compose. done.
  - by rewrite failed_builds_None_raises in Hmain.
Qed.

Lemma filter_builders_allow (allow : list string) (builders : list Builder) :
  allow ≠ [] →
  filter_builders (filtered_builders_of (Some allow)) builders
  = filter (λ builder, builder_name builder ∈ allow) builders.
Proof.
  intros Hne. unfold filter_builders, filtered_builders_of. simpl.
  apply list_filter_iff. intros builder.
  rewrite elem_of_list_to_set. split; [|by right].
  intros [Hempty|Hin]; [|done]. destruct allow as [|a allow]; [done|].
  exfalso. assert (a ∈ (list_to_set (a :: allow) : gset string)) as Ha
    by (apply elem_of_list_to_set; by left).
  rewrite Hempty in Ha. by apply not_elem_of_empty in Ha.
Qed.

Lemma filter_builders_none (builders : list Builder) :
  filter_builders (filtered_builders_of None) builders = builders.
Proof. apply list_filter_all. intros builder. by left. Qed.

Lemma omap_filter {A B} (f : A → option B) (P : A → Prop) (Q : B → Prop)
    `{!∀ x, Decision (P x)} `{!∀ y, Decision (Q y)} (l : list A) :
  (∀ x y, f x = Some y → (P x ↔ Q y)) →
  omap f (filter P l) = filter Q (omap f l).
Proof.
  intros HPQ. induction l as [|x l IH]; [done|].
  rewrite filter_cons. csimpl. destruct (f x) as [y|] eqn:Hfx.
  - rewrite filter_cons. destruct (decide (P x)) as [HP|HP].
    + rewrite decide_True by by apply (HPQ x y). csimpl. by rewrite Hfx, IH.
    + rewrite decide_False by by rewrite <-(HPQ x y). done.
  - case_decide; csimpl; by rewrite ?Hfx, IH.
Qed.

Lemma filter_bind {A B} (P : B → Prop) `{!∀ y, Decision (P y)}
    (f : A → list B) (l : list A) :
  filter P (l ≫= f) = l ≫= (λ x, filter P (f x)).
Proof.
  induction l as [|x l IH]; [done|]. by rewrite !bind_cons, filter_app, IH.
Qed.

(** Restricting the roster to an allow-list before the join gives the rows
    that the run without allow-list gathers, restricted to the names of the
    list: the allow-list removes rows and changes none. *)
Theorem allow_list_filters_rows (env : Env) (server : Server)
    (branches allow : list string) :
  allow ≠ [] →
  all_builds env (mkConfig branches (Some allow)) server
  = filter (λ b, name b ∈ allow)
      (all_builds env (mkConfig branches None) server).
Proof.
  intros Hne. rewrite !all_builds_bind, filter_bind. simpl.
  apply bind_ext_elem. intros br _. unfold branch_builds, collect_step. simpl.
  rewrite filter_builders_allow, filter_builders_none by done.
  destruct (get_latest_builds_on_branch server br) as [|change0 changes]; [done|].
  simpl. rewrite !join_omap. apply omap_filter.
  intros builder row Hrow. unfold row_of in Hrow.
  destruct (last_build_for _ _); by simplify_eq/=.
Qed.

Lemma allow_list_filters_rows_witness :
  all_builds sample_env (mkConfig ["main"; "dev"] (Some ["B2"])) sample_server
  = filter (λ b, name b ∈ ["B2"])
      (all_builds sample_env (mkConfig ["main"; "dev"] None) sample_server).
Proof. by apply allow_list_filters_rows. Defined.

(** ** The fetches *)




(** A run reads the answers of the roster URL and of the changes URL of each
    configured branch, and nothing else: two servers that answer alike on
    these URLs give the same run. *)
Theorem run_reads_only_its_urls (env : Env) (config : Config)
    (http1 http2 : string → Json) :
  http1 ((env_buildbot_url env +:+ "api/v2") +:+ "/builders")
  = http2 ((env_buildbot_url env +:+ "api/v2") +:+ "/builders") →
  (∀ br, br ∈ config_branches config →
     http1 ((env_buildbot_url env +:+ "api/v2") +:+ "/changes?branch=" +:+ br
            +:+ "&limit=1&order=-changeid")
     = http2 ((env_buildbot_url env +:+ "api/v2") +:+ "/changes?branch=" +:+ br
              +:+ "&limit=1&order=-changeid")) →
  run env config http1 = run env config http2.
Proof.
  intros Hroster Hchanges. unfold run, main. f_equal. f_equal.
  rewrite !all_builds_bind. apply bind_ext_elem. intros br Hbr.
  unfold branch_builds, collect_step. simpl.
  unfold Api.get_builders_details, Api.get_latest_builds_on_branch.
  by rewrite Hroster, (Hchanges br Hbr).
Qed.

End Lower.

(** * Instances

    The properties above at concrete inputs. Their texts are ASCII, so
    [str.lower] acts on them as [ascii_str_lower]. *)

Lemma ascii_str_lower_lowers_ascii : lowers_ascii ascii_str_lower.
Proof. by intros s _. Qed.

(** On four rows with the statuses "BUILD Successful", "timed out", the
    empty string and "Building", the second and the third are the failed
    builds, and the first is not among them. *)
Lemma failed_builds_denylist_witness :
  Forall (λ b, is_Some (status b)) classifier_sample
  ∧ ∃ failed,
      failed_builds ascii_str_lower classifier_sample = Ok failed
      ∧ failed = [mkBuild "b2" "http://bb/#/builders/2/builds/7" "abc" "main"
                    (Some "timed out");
                  mkBuild "b3" "http://bb/#/builders/3/builds/7" "abc" "main"
                    (Some EmptyString)]
      ∧ mkBuild "b1" "http://bb/#/builders/1/builds/7" "abc" "main"
          (Some "BUILD Successful") ∉ failed.
Proof.
  assert (Forall (λ b, is_Some (status b)) classifier_sample) as Hall.
  { unfold classifier_sample. repeat constructor; by eexists. }
  split; [exact Hall|].
  destruct (failed_builds_denylist ascii_str_lower classifier_sample Hall)
    as (failed & Hrun & Hfilter & _ & Hexamples).
  destruct (Hexamples ascii_str_lower_lowers_ascii) as (Hsuccessful & _).
  exists failed. split_and!; [exact Hrun|by rewrite Hfilter|].
  eapply Hsuccessful; [|reflexivity|reflexivity].
  unfold classifier_sample. by left.
Defined.

(** A run with one healthy and one failed build on [main] and no change on
    [dev] sends one mail. *)
Lemma main_one_mail_iff_failures_witness :
  failed_builds ascii_str_lower (all_builds sample_env sample_config sample_server)
  = Ok [mkBuild "B2" "http://bb/#/builders/2/builds/43" "abc" "main" (Some "failed")]
  ∧ ∃ trace,
      main ascii_str_lower sample_env sample_config sample_server = Ok trace
      ∧ length (mails trace) = 1.
Proof.
  assert (failed_builds ascii_str_lower
            (all_builds sample_env sample_config sample_server)
          = Ok [mkBuild "B2" "http://bb/#/builders/2/builds/43" "abc" "main"
                  (Some "failed")]) as Hrun by (by vm_compute).
  split; [exact Hrun|].
  destruct (main_one_mail_iff_failures ascii_str_lower sample_env sample_config
              sample_server _ Hrun) as (trace & Hmain & _ & Hmail & _).
  exists trace. split; [exact Hmain|].
  destruct Hmail as (msg & Htrace & Hmails & _); [done|].
  rewrite Hmails, Htrace. reflexivity.
Defined.

(** C6, the example as the claim words it: on a [main] row and a [dev] row,
    the branches are rendered [main] first, so [dev] does not come before
    [main]; in the text, whatever [str.lower] is, the heading of [main] is at
    position 0 and the heading of [dev] far behind it. *)
Lemma html_dev_before_main_counterexample :
  branches_sorted (group_by_branch html_sample) = ["main"; "dev"]
  ∧ ¬ precedes "dev" "main" (branches_sorted (group_by_branch html_sample))
  ∧ (∀ lower,
       String.index 0 "<h3>Branch: main</h3>"
         (builds_to_html_table lower html_sample) = Some 0
       ∧ String.index 0 "<h3>Branch: dev</h3>"
           (builds_to_html_table lower html_sample) = Some 379).
Proof.
  split_and!; [reflexivity| |by intros lower; vm_compute].
  assert (branches_sorted (group_by_branch html_sample) = ["main"; "dev"])
    as -> by reflexivity.
  intros (l1 & l2 & l3 & Heq).
  destruct l1 as [|x1 [|x2 [|x3 l1]]]; simplify_eq/=;
    destruct l2 as [|y1 [|y2 l2]]; simplify_eq/=.
Qed.

(** In a branch with the builders "b" and "A", given in this order, the
    table lists A first. *)
Lemma html_branches_descending_names_ascending_witness :
  lowers_ascii ascii_str_lower
  ∧ builds_in_branch_sorted ascii_str_lower
      (group_by_branch
         [mkBuild "b" "http://x/b" "abc123" "main" (Some "failed");
          mkBuild "A" "http://x/A" "abc123" "main" (Some "failed")]) "main"
    = [mkBuild "A" "http://x/A" "abc123" "main" (Some "failed");
       mkBuild "b" "http://x/b" "abc123" "main" (Some "failed")].
Proof.
  split; [exact ascii_str_lower_lowers_ascii|].
  destruct (html_branches_descending_names_ascending ascii_str_lower [])
    as (_ & _ & _ & _ & _ & Hnames).
  apply Hnames. exact ascii_str_lower_lowers_ascii.
Defined.

Lemma failed_builds_idempotent_witness :
  failed_builds ascii_str_lower
    [mkBuild "b2" "http://bb/#/builders/2/builds/7" "abc" "main" (Some "timed out");
     mkBuild "b3" "http://bb/#/builders/3/builds/7" "abc" "main" (Some EmptyString)]
  = Ok [mkBuild "b2" "http://bb/#/builders/2/builds/7" "abc" "main" (Some "timed out");
        mkBuild "b3" "http://bb/#/builders/3/builds/7" "abc" "main" (Some EmptyString)].
Proof.
  apply (failed_builds_idempotent ascii_str_lower classifier_sample). reflexivity.
Defined.

Lemma html_contains_every_row_witness :
  str_contains "<h3>Branch: dev</h3>"
    (builds_to_html_table ascii_str_lower html_sample)
  ∧ str_contains
      (html_row (mkBuild "build-B" "http://x/B" "def456" "dev" (Some "failed")))
      (builds_to_html_table ascii_str_lower html_sample)
  ∧ str_contains
      ("<a href=" +:+ String DQUOTE "http://x/B" +:+ String DQUOTE ">"
       +:+ "build-B" +:+ "</a>")
      (builds_to_html_table ascii_str_lower html_sample).
Proof.
  apply (html_contains_every_row ascii_str_lower html_sample
           (mkBuild "build-B" "http://x/B" "def456" "dev" (Some "failed"))).
  unfold html_sample. right. left.
Defined.

Lemma html_order_independent_witness :
  builds_to_html_table ascii_str_lower html_sample
  = builds_to_html_table ascii_str_lower (reverse html_sample).
Proof.
  apply html_order_independent.
  - unfold html_sample. apply Permutation_swap.
  - unfold html_sample. intros b1 b2 Hb1 Hb2 Hbranch _.
    apply elem_of_cons in Hb1 as [->|Hb1], Hb2 as [->|Hb2]; [done|..];
      try apply list_elem_of_singleton in Hb1 as ->;
      try apply list_elem_of_singleton in Hb2 as ->; done.
Defined.

Lemma mail_reports_failed_rows_witness :
  mail_html_body
    (mkMail "ci@example.com" "dev@example.com" "Failed builds"
       (builds_to_html_table ascii_str_lower
          [mkBuild "B2" "http://bb/#/builders/2/builds/43" "abc" "main"
             (Some "failed")])
       "builds_report.csv"
       (builds_to_csv
          [mkBuild "B2" "http://bb/#/builders/2/builds/43" "abc" "main"
             (Some "failed")]))
  = builds_to_html_table ascii_str_lower
      (filter (λ b, ¬ excluded ascii_str_lower b)
         (all_builds sample_env sample_config sample_server)).
Proof.
  refine (proj1 (proj2 (mail_reports_failed_rows ascii_str_lower sample_env
                          sample_config sample_server "smtp.example.com" 465
                          "ci@example.com" "dev@example.com" _ _))).
  by vm_compute.
Defined.


Lemma run_reads_only_its_urls_witness :
  run ascii_str_lower sample_env sample_config sample_http
  = run ascii_str_lower sample_env sample_config sample_http_elsewhere.
Proof.
  apply run_reads_only_its_urls; [reflexivity|].
  intros br Hbr. unfold sample_config in Hbr. simpl in Hbr.
  apply elem_of_cons in Hbr as [->|Hbr]; [reflexivity|].
  apply list_elem_of_singleton in Hbr as ->. reflexivity.
Defined.
